(** * Sigma rule backends: QRadar (AQL) and uberAgent ESA

    A shallow embedding of [tools/sigma/backends/qradar.py] and
    [tools/sigma/backends/uberagent.py], and the properties of the
    compiler backends stated over it.

    Python values are modelled as follows.
    - [str] is [string]; a character is a code point below 256.
    - [int] is [Z]; a counter that only counts up is a [nat].
    - [None] is the [None] of an [option].
    - a raised exception is the [Raise] arm of [result]; a call that
      raises makes its caller raise unless the caller has a handler.
    - a [dict] literal that is iterated is an association list in
      insertion order. *)

From Stdlib Require Import String Ascii List ZArith Lia Bool Arith DecimalString.
From Equations Require Import Equations.
Import ListNotations.
Open Scope string_scope.
Set Warnings "-register-all".

(** ** Python primitives used by the two backends *)

Module Py.

Inductive exn : Type :=
| TypeError (msg : string)
| ValueError
| KeyError (key : string)
| NotImplementedError (msg : string)
| IgnoreTypedModifierException
| IgnoreFieldException
| IgnoreAggregationException
| MalformedRuleException.

Inductive result (A : Type) : Type :=
| Ok (a : A)
| Raise (e : exn).

Arguments Ok {A} a.
Arguments Raise {A} e.

Definition bind {A B : Type} (m : result A) (k : A -> result B) : result B :=
  match m with
  | Ok a => k a
  | Raise e => Raise e
  end.

(** [[f(x) for x in xs]]: the first element that raises ends the loop. *)
Definition mapM {A B : Type} (f : A -> result B) : list A -> result (list B) :=
  fix go (xs : list A) : result (list B) :=
    match xs with
    | [] => Ok []
    | x :: rest =>
        bind (f x) (fun y => bind (go rest) (fun ys => Ok (y :: ys)))
    end.

Definition dq : ascii := "034"%char.
Definition nl : ascii := "010"%char.
Definition bslash : ascii := "092"%char.

Definition is_bs (c : ascii) : bool := (c =? bslash)%char.

Definition code (c : ascii) : nat := nat_of_ascii c.

Definition between (lo hi n : nat) : bool := Nat.leb lo n && Nat.leb n hi.

(** [str.lower()] on code points below 256: A-Z and the Latin-1 capitals
    (all of 0xC0-0xDE but the multiplication sign 0xD7) move up by 32. *)
Definition lower_char (c : ascii) : ascii :=
  let n := code c in
  if between 65 90 n || (between 192 222 n && negb (Nat.eqb n 215))
  then ascii_of_nat (Nat.add n 32) else c.

Fixpoint lower (s : string) : string :=
  match s with
  | "" => ""
  | String c t => String (lower_char c) (lower t)
  end.

(** [p in s] for strings. *)
Fixpoint contains (p s : string) : bool :=
  prefix p s ||
  match s with
  | "" => false
  | String _ t => contains p t
  end.

Definition startswith (s p : string) : bool := prefix p s.

Fixpoint endswith (s p : string) : bool :=
  (s =? p) ||
  match s with
  | "" => false
  | String _ t => endswith t p
  end.

(** [s.replace(c, r)] for a one-character pattern [c]. *)
Fixpoint replace (c : ascii) (r : string) (s : string) : string :=
  match s with
  | "" => ""
  | String x t => if (x =? c)%char then r ++ replace c r t else String x (replace c r t)
  end.

(** [sep.join(xs)] *)
Definition join (sep : string) (xs : list string) : string := String.concat sep xs.

(** [s[-1:]] and [s[:-1]] *)
Fixpoint slice_last (s : string) : string :=
  match s with
  | "" => ""
  | String c "" => String c ""
  | String _ t => slice_last t
  end.

Fixpoint slice_init (s : string) : string :=
  match s with
  | "" => ""
  | String _ "" => ""
  | String c t => String c (slice_init t)
  end.

(** [str(n)] for an [int]. *)
Definition str_of_Z (z : Z) : string := NilZero.string_of_int (Z.to_int z).

Inductive scalar : Type :=
| SStr (s : string)
| SInt (z : Z).

Definition str (v : scalar) : string :=
  match v with
  | SStr s => s
  | SInt z => str_of_Z z
  end.

(** [int(s)]: white space is stripped on both sides, one sign is allowed,
    then decimal digits, single underscores only between two digits. *)
Definition is_space (c : ascii) : bool :=
  let n := code c in
  between 9 13 n || Nat.eqb n 32 || Nat.eqb n 133 || Nat.eqb n 160.

Fixpoint lstrip (s : string) : string :=
  match s with
  | "" => ""
  | String c t => if is_space c then lstrip t else s
  end.

Fixpoint rstrip (s : string) : string :=
  match s with
  | "" => ""
  | String c t =>
      let t' := rstrip t in
      if is_space c && (t' =? "") then "" else String c t'
  end.

Definition digit_val (c : ascii) : option Z :=
  let n := code c in
  if between 48 57 n then Some (Z.of_nat (Nat.sub n 48)) else None.

Fixpoint parse_digits (acc : Z) (s : string) : option Z :=
  match s with
  | "" => Some acc
  | String c t =>
      if (c =? "_")%char then
        match t with
        | String d t' =>
            match digit_val d with
            | Some v => parse_digits (10 * acc + v) t'
            | None => None
            end
        | "" => None
        end
      else
        match digit_val c with
        | Some v => parse_digits (10 * acc + v) t
        | None => None
        end
  end.

Definition parse_unsigned (s : string) : option Z :=
  match s with
  | String d t =>
      match digit_val d with
      | Some v => parse_digits v t
      | None => None
      end
  | "" => None
  end.

Definition int (s : string) : result Z :=
  let s1 := rstrip (lstrip s) in
  let '(neg, body) :=
    match s1 with
    | String c t =>
        if (c =? "-")%char then (true, t)
        else if (c =? "+")%char then (false, t)
        else (false, s1)
    | "" => (false, "")
    end in
  match parse_unsigned body with
  | Some n => Ok (if neg then (- n)%Z else n)
  | None => Raise ValueError
  end.

(** [s.splitlines()]: a line ends at LF, VT, FF, CR, CR LF, FS, GS, RS or
    NEL; the text after the last line end is a line when it is not empty. *)
Definition is_linebreak (c : ascii) : bool :=
  let n := code c in
  between 10 13 n || between 28 30 n || Nat.eqb n 133.

Fixpoint splitlines_go (cur : string) (s : string) : list string :=
  match s with
  | "" => if cur =? "" then [] else [cur]
  | String c t =>
      if is_linebreak c then
        match t with
        | String c2 t2 =>
            if Nat.eqb (code c) 13 && Nat.eqb (code c2) 10
            then cur :: splitlines_go "" t2
            else cur :: splitlines_go "" t
        | "" => [cur]
        end
      else splitlines_go (cur ++ String c "") t
  end.

Definition splitlines (s : string) : list string := splitlines_go "" s.

(** [d[k]] and [k in d] on a dict held as an association list. *)
Fixpoint lookup {V : Type} (k : string) (d : list (string * V)) : option V :=
  match d with
  | [] => None
  | (k', v) :: rest => if k' =? k then Some v else lookup k rest
  end.

Definition mem {V : Type} (k : string) (d : list (string * V)) : bool :=
  match lookup k d with
  | Some _ => true
  | None => false
  end.

Definition getitem {V : Type} (d : list (string * V)) (k : string) : result V :=
  match lookup k d with
  | Some v => Ok v
  | None => Raise (KeyError k)
  end.

(** [x in xs] for a list of strings. *)
Definition mem_list (x : string) (xs : list string) : bool :=
  existsb (String.eqb x) xs.

End Py.

Import Py.

Notation "x <- m ;; k" := (bind m (fun x => k))
  (at level 61, m at next level, right associativity).


(** ** The parsed rule handed to a backend *)

Module Sigma.

(** Modelled from the spec: the condition tree and the aggregation clause
    of section 3 (the classes of [sigma.parser.condition] and
    [sigma.parser.modifiers] are imported by the backends and are not
    among the sources). A list value holds strings, integers or [None]. *)
Inductive modifier : Type :=
| ModRegex
| ModContains
| ModStartswith
| ModEndswith.

Definition identifier (m : modifier) : string :=
  match m with
  | ModRegex => "re"
  | ModContains => "contains"
  | ModStartswith => "startswith"
  | ModEndswith => "endswith"
  end.

Inductive item : Type :=
| INone
| IVal (v : scalar).

Inductive value : Type :=
| VScalar (v : scalar)
| VList (items : list item)
| VNull
| VTyped (kind : modifier) (payload : string).

Inductive node : Type :=
| ConditionAND (children : list node)
| ConditionOR (children : list node)
| ConditionNOT (child : node)
| NodeSubexpression (child : node)
| MapItem (field : string) (v : value)
| Leaf (v : scalar).

Inductive aggfunc_id : Type :=
| AGGFUNC_COUNT
| AGGFUNC_MIN
| AGGFUNC_MAX
| AGGFUNC_AVG
| AGGFUNC_SUM
| AGGFUNC_NEAR.

Definition is_near (f : aggfunc_id) : bool :=
  match f with
  | AGGFUNC_NEAR => true
  | _ => false
  end.

Record aggregation : Type := {
  aggfunc : aggfunc_id;
  aggfunc_notrans : string;
  aggfield : option string;
  groupfield : option string;
  cond_op : string;
  condition : Z
}.

End Sigma.

Import Sigma.

(** ** qradar.py *)

Module QRadar.

Definition orToken : string := " or ".
Definition listSeparator : string := " ".
Definition listExpression (s : string) : string := s.
Definition valueExpression (s : string) : string := "'" ++ s ++ "'".
Definition nullExpression (k : string) : string := k ++ " is null".
Definition mapExpression (k v : string) : string := k ++ "=" ++ v.
Definition mapListsSpecialHandling : bool := true.
Definition aql_database : string := "events".

Definition cleanKey (key : option string) : string :=
  match key with
  | None => ""
  | Some k => if contains " " k then String dq k ++ String dq "" else k
  end.

Definition cleanValue (value : string) : string := replace "'" "\'" value.

Definition generateValueNode (node : scalar) (keypresent : bool) : string :=
  if negb keypresent
  then "UTF8(payload) ilike '" ++ "%" ++ cleanValue (str node) ++ "%" ++ "'"
  else valueExpression (cleanValue (str node)).

(** Lines 134-139 of [generateMapItemTypedNode]: the two tests run one
    after the other on the same variable [regex]. *)
Definition anchorRegex (pattern : string) : string :=
  let regex := pattern in
  let regex :=
    if negb (startswith regex "^") && negb (startswith regex ".*")
    then ".*" ++ regex else regex in
  let regex :=
    if negb (endswith regex "$") && negb (endswith regex ".*")
    then regex ++ ".*" else regex in
  regex.

Definition generateMapItemTypedNode (fieldname : string) (kind : modifier)
    (payload : string) : result string :=
  match kind with
  | ModRegex =>
      Ok (cleanKey (Some fieldname) ++ " imatches "
          ++ generateValueNode (SStr (anchorRegex payload)) true)
  | _ =>
      Raise (NotImplementedError
               ("Type modifier '" ++ identifier kind ++ "' is not supported by backend"))
  end.

(** One turn of the loop of [generateMapItemListNode]. *)
Definition list_item_clause (key : string) (it : item) : string :=
  match it with
  | INone => nullExpression key
  | IVal (SStr s) =>
      if contains "ip" key && (contains "/16" s || contains "/24" s) then
        "INCIDR(" ++ generateValueNode (SStr s) true ++ ", " ++ cleanKey (Some key) ++ ")"
      else if contains "*" s then
        cleanKey (Some key) ++ " ilike " ++ generateValueNode (SStr (replace "*" "%" s)) true
      else
        cleanKey (Some key) ++ " = " ++ generateValueNode (SStr s) true
  | IVal (SInt z) =>
      cleanKey (Some key) ++ " = " ++ generateValueNode (SInt z) true
  end.

Definition generateMapItemListNode (key : string) (value : list item) : string :=
  let itemslist :=
    fold_left (fun acc it => (acc ++ [list_item_clause key it])%list) value [] in
  "(" ++ join " or " itemslist ++ ")".

(** Modelled from the spec: [generateListNode] of the base class (not among
    the sources), reached from [generateMapItemNode] only when
    [mapListsSpecialHandling] is off: the items, which must be strings or
    numbers, each rendered as a bare value and joined. *)
Definition generateListNode (items : list item) : result string :=
  rendered <- mapM (fun it =>
                match it with
                | IVal v => Ok (generateValueNode v false)
                | INone => Raise (TypeError "List values must be strings or numbers")
                end) items ;;
  Ok (listExpression (join listSeparator rendered)).

Definition generateMapItemNode (key : string) (value : Sigma.value) : result string :=
  match value with
  | VScalar (SStr s) =>
      if contains "*" s then
        Ok (cleanKey (Some key) ++ " ilike "
            ++ generateValueNode (SStr (replace "*" "%" s)) true)
      else Ok (mapExpression (cleanKey (Some key)) (generateValueNode (SStr s) true))
  | VScalar (SInt z) =>
      Ok (mapExpression (cleanKey (Some key)) (generateValueNode (SInt z) true))
  | VList items =>
      if negb mapListsSpecialHandling then
        rendered <- generateListNode items ;;
        Ok (mapExpression (cleanKey (Some key)) rendered)
      else Ok (generateMapItemListNode key items)
  | VTyped kind payload => generateMapItemTypedNode key kind payload
  | VNull => Ok (nullExpression key)
  end.

(** [generateTimeframe] returns a dict with one entry. *)
Definition generateTimeframe (timeframe : string) : result (list (string * Z)) :=
  let time_unit := slice_last timeframe in
  let duration := slice_init timeframe in
  if time_unit =? "s" then n <- int duration ;; Ok [("seconds", n)]
  else if time_unit =? "m" then n <- int duration ;; Ok [("minutes", n)]
  else if time_unit =? "h" then n <- int duration ;; Ok [("hours", n)]
  else if time_unit =? "d" then n <- int duration ;; Ok [("days", n)]
  else n <- int duration ;; Ok [("months", n)].

(** What [generateAggregation] returns: the empty string, a pair, or
    [None] when the loop over the timeframe dict has nothing to visit. *)
Inductive agg_output : Type :=
| AggEmpty
| AggPair (prefix suffix : string)
| AggNone.

Definition generateAggregation (agg : option aggregation) (timeframe : option string)
    : result agg_output :=
  match agg with
  | None => Ok AggEmpty
  | Some agg =>
      if is_near (aggfunc agg) then
        Raise (NotImplementedError
                 "The 'near' aggregation operator is not yet implemented for this backend")
      else
        match groupfield agg with
        | None =>
            Ok (AggPair
                  ("SELECT " ++ aggfunc_notrans agg ++ "(" ++ cleanKey (aggfield agg)
                   ++ ") as agg_val from " ++ aql_database ++ " where")
                  (" group by " ++ cleanKey (aggfield agg) ++ " having agg_val "
                   ++ cond_op agg ++ " " ++ str_of_Z (condition agg)))
        | Some gf =>
            let no_timeframe :=
              match timeframe with
              | None => true
              | Some tf => tf =? "00"
              end in
            if no_timeframe then
              Ok (AggPair
                    (" SELECT " ++ aggfunc_notrans agg ++ "(" ++ cleanKey (aggfield agg)
                     ++ ") as agg_val from " ++ aql_database ++ " where ")
                    (" group by " ++ cleanKey (Some gf) ++ " having agg_val "
                     ++ cond_op agg ++ " " ++ str_of_Z (condition agg)))
            else
              items <- generateTimeframe (match timeframe with Some tf => tf | None => "" end) ;;
              match items with
              | (key, duration) :: _ =>
                  Ok (AggPair
                        (" SELECT " ++ aggfunc_notrans agg ++ "(" ++ cleanKey (aggfield agg)
                         ++ ") as agg_val from " ++ aql_database ++ " where ")
                        (" group by " ++ cleanKey (Some gf) ++ " having agg_val "
                         ++ cond_op agg ++ " " ++ str_of_Z (condition agg)
                         ++ " LAST " ++ str_of_Z duration ++ " " ++ key))
              | [] => Ok AggNone
              end
        end
  end.

End QRadar.


(** ** uberagent.py *)

Module UberAgent.

(** *** Module-level helpers *)

Definition convert_sigma_level_to_uberagent_risk_score (level : string) : Z :=
  let levels := [("critical", 100%Z); ("high", 75%Z); ("medium", 50%Z); ("low", 25%Z)] in
  match lookup level levels with
  | Some score => score
  | None => 0%Z
  end.

(** [re.sub(r"-{2,}", "-", tag)]: the greedy match takes a whole run of two
    or more hyphens, and one hyphen replaces it: every hyphen that is
    followed by a hyphen goes. *)
Fixpoint sub_hyphen_runs (s : string) : string :=
  match s with
  | "" => ""
  | String c t =>
      match t with
      | String c2 _ =>
          if (c =? "-")%char && (c2 =? "-")%char
          then sub_hyphen_runs t
          else String c (sub_hyphen_runs t)
      | "" => String c ""
      end
  end.

Definition convert_sigma_name_to_uberagent_tag (name : string) : string :=
  let tag := replace " " "-" (lower name) in
  sub_hyphen_runs tag.

Definition categories : list (string * string) :=
  [ ("process_creation", "Process.Start");
    ("image_load", "Image.Load");
    ("dns", "Dns.Query");
    ("dns_query", "Dns.Query");
    ("network_connection", "Net.Any");
    ("firewall", "Net.Any");
    ("create_remote_thread", "Process.CreateRemoteThread");
    ("registry_event", "Reg.Any");
    ("registry_add", "Reg.Any");
    ("registry_delete", "Reg.Any");
    ("registry_set", "Reg.Any");
    ("registry_rename", "Reg.Any") ].

(** [gUnsupportedCategories[category] += 1], or [= 1] for a new key, which
    goes last. *)
Fixpoint count_unsupported (category : string) (g : list (string * nat))
    : list (string * nat) :=
  match g with
  | [] => [(category, 1)]
  | (k, n) :: rest =>
      if k =? category then (k, S n) :: rest
      else (k, n) :: count_unsupported category rest
  end.

Definition convert_sigma_category_to_uberagent_event_type (category : string)
    (g : list (string * nat)) : option string * list (string * nat) :=
  match lookup category categories with
  | Some event_type => (Some event_type, g)
  | None => (None, count_unsupported category g)
  end.

Definition is_sigma_category_supported (category : string) (g : list (string * nat))
    : bool * list (string * nat) :=
  let '(event_type, g) := convert_sigma_category_to_uberagent_event_type category g in
  (match event_type with Some _ => true | None => false end, g).

(** *** ActivityMonitoringRule *)

Record ActivityMonitoringRule : Type := {
  name : string;
  event_type : option string;
  tag : string;
  query : string;
  risk_score : Z;
  description : string;
  sigma_level : string
}.

Definition new_rule : ActivityMonitoringRule :=
  {| name := ""; event_type := None; tag := ""; query := ""; risk_score := 0;
     description := ""; sigma_level := "" |}.

Definition generic_properties : list (string * list string) :=
  [ ("Process.", ["Process.Hash.MD5"; "Process.Hash.SHA1"; "Process.Hash.SHA256";
                  "Process.Hash.IMP"]);
    ("Image.", ["Image.Name"; "Image.Path"; "Image.Hash.MD5"; "Image.Hash.SHA1";
                "Image.Hash.SHA256"; "Image.Hash.IMP"]);
    ("Net.", ["Net.Target.Ip"; "Net.Target.Name"; "Net.Target.Port";
              "Net.Target.Protocol"; "Net.Source.Ip"; "Net.Source.Port"]);
    ("Reg.", ["Reg.Key.Path"; "Reg.Key.Path.New"; "Reg.Key.Path.Old"; "Reg.Key.Name";
              "Reg.Parent.Key.Path"; "Reg.Value.Name"; "Reg.File.Name"; "Reg.Key.Sddl";
              "Reg.Key.Hive"; "Reg.Key.Target"]);
    ("Dns.", ["Dns.QueryRequest"; "Dns.QueryResponse"]) ].

Definition _prefixed_tag (self : ActivityMonitoringRule) : string :=
  let prefixes := [("Process.Start", "proc-start")] in
  match event_type self with
  | Some et =>
      match lookup et prefixes with
      | Some p => p ++ "-" ++ tag self
      | None => tag self
      end
  | None => tag self
  end.

Definition line (s : string) : string := s ++ String nl "".

(** The inner loop of [__str__] over the properties of one prefix; [break]
    leaves it with the state it has. *)
Fixpoint generic_property_loop (props : list string) (st : string * nat)
    : string * nat :=
  match props with
  | [] => st
  | prop :: rest =>
      let '(result, counter) := st in
      if Nat.ltb 10 counter then st
      else generic_property_loop rest
             (result ++ line ("GenericProperty" ++ str_of_Z (Z.of_nat counter)
                               ++ " = " ++ prop),
              S counter)
  end.

Definition __str__ (self : ActivityMonitoringRule) : result string :=
  let result := line "[ActivityMonitoringRule]" in
  let result :=
    if Nat.ltb 0 (String.length (description self)) then
      fold_left (fun acc description_line => acc ++ line ("# " ++ description_line))
                (splitlines (description self)) result
    else result in
  match event_type self with
  | None => Raise MalformedRuleException
  | Some et =>
      if Nat.eqb (String.length (tag self)) 0 then Raise MalformedRuleException
      else if Nat.eqb (String.length (name self)) 0 then Raise MalformedRuleException
      else if Nat.eqb (String.length (query self)) 0 then Raise MalformedRuleException
      else
        let result := result ++ line ("RuleName = " ++ name self) in
        let result := result ++ line ("EventType = " ++ et) in
        let result := result ++ line ("Tag = " ++ _prefixed_tag self) in
        let result :=
          if (0 <? risk_score self)%Z
          then result ++ line ("RiskScore = " ++ str_of_Z (risk_score self))
          else result in
        let result := result ++ line ("Query = " ++ query self) in
        let result :=
          if et =? "Reg.Any" then result ++ line "Hive = HKLM,HKU" else result in
        let '(result, _) :=
          fold_left (fun st '(event_type_prefix, props) =>
                       if startswith et event_type_prefix
                       then generic_property_loop props st
                       else st)
                    generic_properties (result, 1) in
        Ok result
  end.

(** *** The rule handed to [generate] *)

(** Modelled from the spec: the parsed rule of section 3, with the keys
    that [get_parser_properties] reads from [sigmaparser.parsedyaml] and the
    one parsed condition ([parsedSearch], [parsedAgg]) that the inherited
    [generate] compiles. *)
Record SigmaParser : Type := {
  title : string;
  level : string;
  rule_description : string;
  detection_condition : string;
  logsource_category : option string;
  logsource_product : option string;
  logsource_service : option string;
  parsedSearch : node;
  parsedAgg : option aggregation
}.

Definition lower_or_empty (o : option string) : string :=
  match o with
  | Some s => lower s
  | None => ""
  end.

Definition get_parser_properties (sigmaparser : SigmaParser)
    : string * string * string * string * string * string * string :=
  (lower_or_empty (logsource_product sigmaparser),
   lower_or_empty (logsource_category sigmaparser),
   lower_or_empty (logsource_service sigmaparser),
   title sigmaparser,
   level sigmaparser,
   detection_condition sigmaparser,
   rule_description sigmaparser).

Definition write_file_header (level : string) : string :=
  line "#"
  ++ line "# The rules are generated from the Sigma GitHub repository at https://github.com/Neo23x0/sigma"
  ++ line "# Follow these steps to get the latest rules from the repository with Python"
  ++ line "#    1. Clone the repository locally"
  ++ line "#    2. Using a commandline, change working directory to the just cloned repository"
  ++ line "#    3. Run sigmac -I --target uberagent -r rules/"
  ++ line "#"
  ++ line ("# The rules in this file are marked with sigma-level: " ++ level)
  ++ line "#" ++ String nl "".


(** *** uberAgentBackend: tokens and tables *)

Definition andToken : string := " and ".
Definition orToken : string := " or ".
Definition notToken : string := "not ".
Definition subExpression (s : string) : string := "(" ++ s ++ ")".
Definition listExpression (s : string) : string := "[" ++ s ++ "]".
Definition listSeparator : string := ", ".
Definition valueExpression (s : string) : string := String dq s ++ String dq "".
Definition nullExpression (k : string) : string := k ++ " == ''".
Definition mapExpression (k v : string) : string := k ++ " == " ++ v.
Definition mapListsSpecialHandling : bool := true.
Definition mapListValueExpression (k v : string) : string := k ++ " in " ++ v.
Definition mapWildcard (k v : string) : string := k ++ " like r" ++ v.

Definition fieldMapping : list (string * string) :=
  [ ("commandline", "Process.CommandLine");
    ("image", "Process.Path");
    ("originalfilename", "Process.Name");
    ("imageloaded", "Image.Path");
    ("imagepath", "Image.Path");
    ("parentcommandline", "Parent.CommandLine");
    ("parentprocessname", "Parent.Name");
    ("parentimage", "Parent.Path");
    ("path", "Process.Path");
    ("processcommandline", "Process.CommandLine");
    ("command", "Process.CommandLine");
    ("processname", "Process.Name");
    ("user", "Process.User");
    ("username", "Process.User");
    ("company", "Process.Company") ].

Definition registry_fields : list (string * string) :=
  [ ("targetobject", "Reg.Key.Target"); ("newname", "Reg.Key.Path.New") ].

Definition fieldMappingPerCategory : list (string * list (string * string)) :=
  [ ("process_creation",
      [ ("sha1", "Process.Hash.SHA1"); ("imphash", "Process.Hash.IMP");
        ("childimage", "Process.Path") ]);
    ("image_load",
      [ ("sha1", "Image.Hash.SHA1"); ("imphash", "Image.Hash.IMP");
        ("childimage", "Image.Path") ]);
    ("dns",
      [ ("query", "Dns.QueryRequest"); ("answer", "Dns.QueryResponse") ]);
    ("dns_query",
      [ ("queryname", "Dns.QueryRequest") ]);
    ("network_connection",
      [ ("destinationport", "Net.Target.Port"); ("destinationip", "Net.Target.Ip");
        ("destinationhostname", "Net.Target.Name");
        ("destinationisipv6", "Net.Target.IpIsV6");
        ("sourceport", "Net.Source.Port") ]);
    ("firewall",
      [ ("destination.port", "Net.Target.Port"); ("dst_ip", "Net.Target.Ip");
        ("src_ip", "Net.Source.Ip") ]);
    ("create_remote_thread",
      [ ("targetimage", "Process.Path"); ("startmodule", "Thread.StartModule");
        ("startfunction", "Thread.StartFunctionName") ]);
    ("registry_event", registry_fields);
    ("registry_add", registry_fields);
    ("registry_delete", registry_fields);
    ("registry_set", registry_fields);
    ("registry_rename", registry_fields) ].

Definition ignoreFieldList : list string :=
  [ "description"; "product"; "logonid"; "integritylevel"; "currentdirectory";
    "parentintegritylevel"; "eventid"; "parentuser"; "parent_domain"; "signed";
    "parentofparentimage"; "record_type"; "querystatus"; "initiated"; "action";
    "targetprocessaddress"; "sourceimage"; "eventtype"; "details" ].

(** [str(self.current_category)] inside the f-string of the error. *)
Definition str_of_category (c : option string) : string :=
  match c with
  | Some s => s
  | None => "None"
  end.

(** [d[c]] where [c] may be [None], which is no key of [d]. *)
Definition getitem_category {V : Type} (d : list (string * V)) (c : option string)
    : result V :=
  match c with
  | Some k => getitem d k
  | None => Raise (KeyError "None")
  end.

(** The test of the first [if] of [fieldNameMapping]. *)
Definition in_category_table (current_category : option string) (key : string) : bool :=
  match current_category with
  | None => false
  | Some c =>
      match lookup c fieldMappingPerCategory with
      | None => false
      | Some table => mem key table
      end
  end.

Definition fieldNameMapping (current_category : option string) (fieldname : string)
    : result string :=
  let key := lower fieldname in
  if in_category_table current_category key then
    table <- getitem_category fieldMappingPerCategory current_category ;;
    getitem table key
  else if negb (mem key fieldMapping) then
    if mem_list key ignoreFieldList then Raise IgnoreFieldException
    else Raise (NotImplementedError
                  ("The field name " ++ fieldname ++ " in category "
                   ++ str_of_category current_category ++ " is not implemented."))
  else getitem fieldMapping key.

(** *** cleanValue: six substitutions, one after the other

    [prev] says whether the character before the current position of the
    subject is a backslash (what the lookbehind [(?<!\\)] asks). *)

(** [re.sub(r"(?<!\\)\\(?!(\\|\*|\?))", r"\\\\", val)]: a backslash that
    has no backslash before it and none of backslash, star, question mark
    after it becomes two backslashes. *)
Definition next_is_escapable (t : string) : bool :=
  match t with
  | String c _ => is_bs c || (c =? "*")%char || (c =? "?")%char
  | "" => false
  end.

Fixpoint sub_lone_backslash (prev : bool) (s : string) : string :=
  match s with
  | "" => ""
  | String c t =>
      if is_bs c && negb prev && negb (next_is_escapable t)
      then String bslash (String bslash (sub_lone_backslash true t))
      else String c (sub_lone_backslash (is_bs c) t)
  end.

(** [re.sub(r'_', r'\_', val)] and its two siblings: the character gets a
    backslash in front. *)
Fixpoint sub_escape (c : ascii) (s : string) : string :=
  match s with
  | "" => ""
  | String x t =>
      if (x =? c)%char then String bslash (String x (sub_escape c t))
      else String x (sub_escape c t)
  end.

(** The pattern [(\\\\)*(?!\\)\*] at the head of [s]: as many pairs of
    backslashes as possible, then the glyph; with fewer pairs when the
    longer attempt fails. The answer is the number of pairs and the text
    after the glyph. *)
Fixpoint match_pairs_glyph (g : ascii) (s : string) : option (nat * string) :=
  let no_more_pairs :=
    match s with
    | String c t => if negb (is_bs c) && (c =? g)%char then Some (0, t) else None
    | "" => None
    end in
  match s with
  | String c1 (String c2 t) =>
      if is_bs c1 && is_bs c2 then
        match match_pairs_glyph g t with
        | Some (k, rest) => Some (S k, rest)
        | None => no_more_pairs
        end
      else no_more_pairs
  | _ => no_more_pairs
  end.

(** The whole pattern [(?<!\\)(\\\\)*(?!\\)\*] at the current position. *)
Definition match_glyph (g : ascii) (prev : bool) (s : string) : option (nat * string) :=
  if prev then None else match_pairs_glyph g s.

(** What [\1] stands for in the replacement after [k] turns of the group:
    the last pair matched, or nothing. *)
Definition group1 (k : nat) : string :=
  match k with
  | O => ""
  | S _ => String bslash (String bslash "")
  end.

(** [re.sub(r"(?<!\\)(\\\\)*(?!\\)\*", r"\1%", val)] with glyph [g] and
    target [r]: where the pattern matches, the match is replaced by group 1
    and the target, and the scan goes on after the match; elsewhere the
    character is copied. Group 1 sits under the star, so it holds the last
    pair that was matched, and nothing when no pair was. *)
Equations? sub_glyph (g r : ascii) (prev : bool) (s : string) : string
    by wf (String.length s) lt :=
  sub_glyph g r prev EmptyString := "";
  sub_glyph g r prev (String c t) with Logic.inspect (match_glyph g prev (String c t)) := {
    | exist _ (Some (k, rest)) E =>
        group1 k ++ String r (sub_glyph g r false rest);
    | exist _ None E => String c (sub_glyph g r (is_bs c) t) }.
Proof.
  unfold match_glyph in E. destruct prev; [discriminate|].
  change (S (String.length t)) with (String.length (String c t)).
  remember (String c t) as s eqn:Hs. clear Hs sub_glyph c t.
  revert k rest E.
  remember (String.length s) as n eqn:Hn. revert s Hn.
  induction n as [n IH] using lt_wf_ind. intros s -> k rest.
  destruct s as [|c1 [|c2 t]]; cbn [match_pairs_glyph].
  - discriminate.
  - destruct (negb (is_bs c1) && (c1 =? g)%char); [|discriminate].
    intros [= <- <-]. cbn. lia.
  - destruct (is_bs c1 && is_bs c2).
    + destruct (match_pairs_glyph g t) as [[k' r']|] eqn:E.
      * intros [= <- <-].
        assert (String.length r' < String.length t)
          by (eapply (IH (String.length t)); [cbn; lia | reflexivity | exact E]).
        cbn. lia.
      * destruct (negb (is_bs c1) && (c1 =? g)%char); [|discriminate].
        intros [= <- <-]. cbn. lia.
    + destruct (negb (is_bs c1) && (c1 =? g)%char); [|discriminate].
      intros [= <- <-]. cbn. lia.
Defined.

(** [val] is a [str] at every call (a value is rendered from [str(node)]),
    so the first test of the source, for other types, does not fire. *)
Definition cleanValue (val : string) : string :=
  let val := sub_lone_backslash false val in
  let val := sub_escape "_" val in
  let val := sub_escape "%" val in
  let val := sub_escape dq val in
  let val := sub_glyph "*" "%" false val in
  let val := sub_glyph "?" "_" false val in
  val.

(** [re.search(r"((\\(\*|\?|\\))|\*|\?|_|%)", s)]: is there a match. *)
Fixpoint has_wildcard (s : string) : bool :=
  match s with
  | "" => false
  | String c t =>
      (is_bs c && next_is_escapable t)
      || (c =? "*")%char || (c =? "?")%char || (c =? "_")%char || (c =? "%")%char
      || has_wildcard t
  end.


(** *** The node compiler *)

(** Modelled from the spec: [generateValueNode] of the base class
    [SingleTextQueryBackend] (not among the sources): the value expression
    around the cleaned text of the scalar. *)
Definition generateValueNode (v : scalar) : string :=
  valueExpression (cleanValue (str v)).

Definition str_of_item (it : item) : string :=
  match it with
  | INone => "None"
  | IVal v => str v
  end.

(** Modelled from the spec: [generateListNode] of the base class (not among
    the sources): the items, which must be strings or numbers, rendered and
    joined inside the list expression. *)
Definition generateListNode (items : list item) : result string :=
  if forallb (fun it => match it with IVal _ => true | INone => false end) items then
    Ok (listExpression
          (join listSeparator
                (map (fun it => valueExpression (cleanValue (str_of_item it))) items)))
  else Raise (TypeError "List values must be strings or numbers").

Definition generateTypedValueNode : result string :=
  Raise IgnoreTypedModifierException.

(** Modelled from the spec: [generateNode] of the base class at the value
    of a map item: dispatch on the variant of the value, any other type
    being an error. *)
Definition generateNode_value (v : value) : result string :=
  match v with
  | VScalar x => Ok (generateValueNode x)
  | VList items => generateListNode items
  | VTyped _ _ => generateTypedValueNode
  | VNull =>
      Raise (TypeError
               "Node type <class 'NoneType'> was not expected in Sigma parse tree")
  end.

Definition generateMapItemListNode (key : string) (value : list item) : string :=
  "(" ++ join " or "
           (map (fun it => mapWildcard key (valueExpression (cleanValue (str_of_item it))))
                value)
  ++ ")".

(** With [mapListsSpecialHandling] on, the third test of the chain is
    [type(value) in (str, int)]. *)
Definition generateMapItemNode (current_category : option string)
    (fieldname : string) (value : Sigma.value) : result string :=
  transformed_fieldname <- fieldNameMapping current_category fieldname ;;
  match value with
  | VNull => Ok (nullExpression transformed_fieldname)
  | _ =>
      generated <- generateNode_value value ;;
      let wildcard := has_wildcard generated in
      if contains "," generated && negb wildcard then
        Ok (mapListValueExpression transformed_fieldname generated)
      else
        match value with
        | VList items => Ok (generateMapItemListNode transformed_fieldname items)
        | VScalar _ =>
            if wildcard then Ok (mapWildcard transformed_fieldname generated)
            else Ok (mapExpression transformed_fieldname generated)
        | _ =>
            if wildcard then Ok (mapWildcard transformed_fieldname generated)
            else Raise (TypeError "Backend does not support map values of this type")
        end
  end.

(** Modelled from the spec: [generateNode] and the combinator methods of
    the base class (not among the sources), as section 4.3 gives them:
    children rendered in order and joined with the token, the NOT token in
    front of the child, the subexpression token around it. The base class
    has no handler of its own: an exception raised under a child leaves the
    combinator with it (section 9, on unwinding to the top of the call
    stack). *)
Fixpoint generateNode (current_category : option string) (n : node) : result string :=
  match n with
  | ConditionAND children =>
      generated <- mapM (generateNode current_category) children ;;
      Ok (join andToken generated)
  | ConditionOR children =>
      generated <- mapM (generateNode current_category) children ;;
      Ok (join orToken generated)
  | ConditionNOT child =>
      generated <- generateNode current_category child ;;
      Ok (notToken ++ generated)
  | NodeSubexpression child =>
      generated <- generateNode current_category child ;;
      Ok (subExpression generated)
  | MapItem field v => generateMapItemNode current_category field v
  | Leaf v => Ok (generateValueNode v)
  end.

Definition generateQuery (current_category : option string) (sigmaparser : SigmaParser)
    : result string :=
  match parsedAgg sigmaparser with
  | Some _ => Raise IgnoreAggregationException
  | None => generateNode current_category (parsedSearch sigmaparser)
  end.

(** Modelled from the spec: [generate] of the base class (not among the
    sources): the compiled search expression of the rule, with nothing
    before or after it. *)
Definition super_generate (current_category : option string) (sigmaparser : SigmaParser)
    : result string :=
  generateQuery current_category sigmaparser.

(** *** The batch: what [generate] and [finalize] read and change *)

Record state : Type := {
  current_category : option string;
  rules : list ActivityMonitoringRule;
  gUnsupportedCategories : list (string * nat);
  stdout : list string;
  files : list (string * string)
}.

Definition initial_state : state :=
  {| current_category := None; rules := []; gUnsupportedCategories := [];
     stdout := []; files := [] |}.

Definition set_unsupported (g : list (string * nat)) (st : state) : state :=
  {| current_category := current_category st; rules := rules st;
     gUnsupportedCategories := g; stdout := stdout st; files := files st |}.

Definition set_current_category (c : option string) (st : state) : state :=
  {| current_category := c; rules := rules st;
     gUnsupportedCategories := gUnsupportedCategories st; stdout := stdout st;
     files := files st |}.

Definition append_rule (r : ActivityMonitoringRule) (st : state) : state :=
  {| current_category := current_category st; rules := (rules st ++ [r])%list;
     gUnsupportedCategories := gUnsupportedCategories st; stdout := stdout st;
     files := files st |}.

Definition print (text : string) (st : state) : state :=
  {| current_category := current_category st; rules := rules st;
     gUnsupportedCategories := gUnsupportedCategories st;
     stdout := (stdout st ++ [text])%list; files := files st |}.

(** [open(name, "w")] and the writes, up to [close]. *)
Definition write_file (name content : string) (st : state) : state :=
  {| current_category := current_category st; rules := rules st;
     gUnsupportedCategories := gUnsupportedCategories st; stdout := stdout st;
     files := (filter (fun f => negb (fst f =? name)) (files st)
               ++ [(name, content)])%list |}.

(** [generate] returns the empty string for a rule it leaves out and
    [None] after the [try] block; an exception it has no handler for leaves
    it. *)
Definition generate (sigmaparser : SigmaParser) (st : state)
    : result (option string) * state :=
  let '(product, category, service, title, level, condition, description) :=
    get_parser_properties sigmaparser in
  let '(supported, g) := is_sigma_category_supported category (gUnsupportedCategories st) in
  let st := set_unsupported g st in
  if negb supported then (Ok (Some ""), st)
  else if negb (mem_list product ["windows"; ""]) then (Ok (Some ""), st)
  else
    let st := set_current_category (Some category) st in
    match super_generate (current_category st) sigmaparser with
    | Ok query =>
        if Nat.ltb 0 (String.length query) then
          let '(event_type, g) :=
            convert_sigma_category_to_uberagent_event_type category
              (gUnsupportedCategories st) in
          let st := set_unsupported g st in
          let rule :=
            {| name := title;
               event_type := event_type;
               tag := convert_sigma_name_to_uberagent_tag title;
               query := query;
               risk_score := convert_sigma_level_to_uberagent_risk_score level;
               description := description;
               sigma_level := level |} in
          let st := append_rule rule st in
          let st := print ("Generated rule <" ++ name rule ++ ">.. [level: "
                           ++ level ++ "]") st in
          (Ok None, st)
        else (Ok None, st)
    | Raise IgnoreTypedModifierException => (Ok (Some ""), st)
    | Raise IgnoreAggregationException => (Ok (Some ""), st)
    | Raise IgnoreFieldException => (Ok (Some ""), st)
    | Raise MalformedRuleException => (Ok (Some ""), st)
    | Raise e => (Raise e, st)
    end.

(** The loop of [serialize_file]: the text written after the header and the
    count, rule by rule. *)
Definition serialize_step (level : string) (acc : result (string * nat))
    (rule : ActivityMonitoringRule) : result (string * nat) :=
  written <- acc ;;
  let '(text, count) := written in
  if sigma_level rule =? level then
    match __str__ rule with
    | Ok serialized_rule => Ok (text ++ line serialized_rule, S count)
    | Raise MalformedRuleException => Ok (text, count)
    | Raise e => Raise e
    end
  else Ok (text, count).

Definition serialize_file (name level : string) (st : state) : result nat * state :=
  match fold_left (serialize_step level) (rules st) (Ok (write_file_header level, 0)) with
  | Ok (text, count) => (Ok count, write_file name text st)
  | Raise e => (Raise e, st)
  end.

Definition str_of_nat (n : nat) : string := str_of_Z (Z.of_nat n).

Definition finalize (st : state) : result unit * state :=
  match serialize_file "uberAgent-ESA-am-sigma-critical.conf" "critical" st with
  | (Raise e, st) => (Raise e, st)
  | (Ok count_critical, st) =>
  match serialize_file "uberAgent-ESA-am-sigma-high.conf" "high" st with
  | (Raise e, st) => (Raise e, st)
  | (Ok count_high, st) =>
  match serialize_file "uberAgent-ESA-am-sigma-low.conf" "low" st with
  | (Raise e, st) => (Raise e, st)
  | (Ok count_low, st) =>
  match serialize_file "uberAgent-ESA-am-sigma-medium.conf" "medium" st with
  | (Raise e, st) => (Raise e, st)
  | (Ok count_medium, st) =>
      let st := print ("Generated " ++ str_of_nat (List.length (rules st))
                       ++ " activity monitoring rules..") st in
      let st := print ("This includes " ++ str_of_nat count_critical
                       ++ " critical rules, " ++ str_of_nat count_high
                       ++ " high rules, " ++ str_of_nat count_medium
                       ++ " medium rules and " ++ str_of_nat count_low
                       ++ " low rules..") st in
      let st := print ("There are "
                       ++ str_of_nat (List.length (gUnsupportedCategories st))
                       ++ " unsupported categories.") st in
      let st :=
        fold_left (fun st entry =>
                     print ("Category " ++ fst entry ++ " has "
                            ++ str_of_nat (snd entry) ++ " unsupported rules.") st)
                  (gUnsupportedCategories st) st in
      (Ok tt, st)
  end end end end.

End UberAgent.


(** * Views and sample inputs used by the statements *)

Module QRadarViews.
Import QRadar.

(** The prologue of an aggregation, with or without the blanks that the
    branches with a group-by field put around it. *)
Definition prologue (padded : bool) (agg : aggregation) : string :=
  (if padded then " " else "") ++ "SELECT " ++ aggfunc_notrans agg ++ "("
  ++ cleanKey (aggfield agg) ++ ") as agg_val from events where"
  ++ (if padded then " " else "").

(** The HAVING comparison of the aggregate against the threshold. *)
Definition having (agg : aggregation) : string :=
  " having agg_val " ++ cond_op agg ++ " " ++ str_of_Z (condition agg).

(** The unit named by the trailing character of a timeframe. *)
Definition unit_of (c : ascii) : string :=
  if (c =? "s")%char then "seconds"
  else if (c =? "m")%char then "minutes"
  else if (c =? "h")%char then "hours"
  else if (c =? "d")%char then "days"
  else "months".

Definition count_by_user : aggregation :=
  {| aggfunc := AGGFUNC_COUNT; aggfunc_notrans := "count"; aggfield := None;
     groupfield := Some "user"; cond_op := ">"; condition := 5 |}.

Definition count_all : aggregation :=
  {| aggfunc := AGGFUNC_COUNT; aggfunc_notrans := "count"; aggfield := None;
     groupfield := None; cond_op := ">"; condition := 5 |}.

End QRadarViews.

Module UberAgentViews.
Import UberAgent.

(** The properties of a rule block, one per line group that [__str__]
    appends. *)
Inductive entry : Type :=
| EHeader
| EDescription (text : string)
| ERuleName (text : string)
| EEventType (text : string)
| ETag (text : string)
| ERiskScore (score : Z)
| EQuery (text : string)
| EHive
| EGenericProperty (number : nat) (prop : string).

Definition render_entry (e : entry) : string :=
  match e with
  | EHeader => line "[ActivityMonitoringRule]"
  | EDescription text => line ("# " ++ text)
  | ERuleName text => line ("RuleName = " ++ text)
  | EEventType text => line ("EventType = " ++ text)
  | ETag text => line ("Tag = " ++ text)
  | ERiskScore score => line ("RiskScore = " ++ str_of_Z score)
  | EQuery text => line ("Query = " ++ text)
  | EHive => line "Hive = HKLM,HKU"
  | EGenericProperty number prop =>
      line ("GenericProperty" ++ str_of_Z (Z.of_nat number) ++ " = " ++ prop)
  end.

Definition render_block (es : list entry) : string :=
  fold_right (fun e rest => render_entry e ++ rest) "" es.

Definition is_generic (e : entry) : bool :=
  match e with
  | EGenericProperty _ _ => true
  | _ => false
  end.

Definition is_risk_score (e : entry) : bool :=
  match e with
  | ERiskScore _ => true
  | _ => false
  end.

(** The properties listed under the prefixes of an event type. *)
Definition listed_properties (table : list (string * list string)) (et : string)
    : list string :=
  flat_map snd (filter (fun row => startswith et (fst row)) table).

Fixpoint numbered (counter : nat) (props : list string) : list entry :=
  match props with
  | [] => []
  | prop :: rest => EGenericProperty counter prop :: numbered (S counter) rest
  end.

Definition block_entries (r : ActivityMonitoringRule) (et : string) : list entry :=
  ([EHeader]
   ++ (if Nat.ltb 0 (String.length (description r))
       then map EDescription (splitlines (description r)) else [])
   ++ [ERuleName (name r); EEventType et; ETag (_prefixed_tag r)]
   ++ (if (0 <? risk_score r)%Z then [ERiskScore (risk_score r)] else [])
   ++ [EQuery (query r)]
   ++ (if et =? "Reg.Any" then [EHive] else [])
   ++ numbered 1 (firstn 10 (listed_properties generic_properties et)))%list.

(** The rules of one level that serialize, and what [serialize_file]
    writes for them. *)
Definition serializes (r : ActivityMonitoringRule) : bool :=
  match __str__ r with
  | Ok _ => true
  | Raise _ => false
  end.

Definition partition (level : string) (rs : list ActivityMonitoringRule)
    : list ActivityMonitoringRule :=
  filter (fun r => (sigma_level r =? level) && serializes r) rs.

Definition block_text (r : ActivityMonitoringRule) : string :=
  match __str__ r with
  | Ok serialized_rule => line serialized_rule
  | Raise _ => ""
  end.

Definition partition_text (level : string) (rs : list ActivityMonitoringRule) : string :=
  write_file_header level
  ++ fold_right (fun r rest => block_text r ++ rest) "" (partition level rs).

Definition with_rules (rs : list ActivityMonitoringRule) (st : state) : state :=
  {| current_category := current_category st; rules := rs;
     gUnsupportedCategories := gUnsupportedCategories st; stdout := stdout st;
     files := files st |}.

(** Field resolution as section 4.2 words it: the category table, then the
    global table, then the ignore set, then the error. *)
Definition category_lookup (current_category : option string) (key : string)
    : option string :=
  match current_category with
  | Some c =>
      match lookup c fieldMappingPerCategory with
      | Some table => lookup key table
      | None => None
      end
  | None => None
  end.

Definition resolve_in_order (current_category : option string) (fieldname : string)
    : result string :=
  match category_lookup current_category (lower fieldname) with
  | Some target => Ok target
  | None =>
      match lookup (lower fieldname) fieldMapping with
      | Some target => Ok target
      | None =>
          if mem_list (lower fieldname) ignoreFieldList
          then Raise IgnoreFieldException
          else Raise (NotImplementedError
                        ("The field name " ++ fieldname ++ " in category "
                         ++ str_of_category current_category
                         ++ " is not implemented."))
      end
  end.

(** Two outcomes that differ at most in the text of the error message. *)
Definition same_outcome (a b : result string) : Prop :=
  match a, b with
  | Ok x, Ok y => x = y
  | Raise (NotImplementedError _), Raise (NotImplementedError _) => True
  | Raise e1, Raise e2 => e1 = e2
  | _, _ => False
  end.

Definition sample_registry_rule : ActivityMonitoringRule :=
  {| name := "Run key"; event_type := Some "Reg.Any"; tag := "run-key";
     query := "Reg.Key.Target like r" ++ valueExpression "%Run%";
     risk_score := 75; description := "Autostart entry"; sigma_level := "high" |}.

Definition sample_informational_source : SigmaParser :=
  {| title := "Whoami"; level := "informational"; rule_description := "";
     detection_condition := "selection";
     logsource_category := Some "process_creation";
     logsource_product := Some "windows"; logsource_service := None;
     parsedSearch := MapItem "Image" (VScalar (SStr "whoami.exe"));
     parsedAgg := None |}.

Definition sample_informational_rule : ActivityMonitoringRule :=
  {| name := "Whoami"; event_type := Some "Process.Start"; tag := "whoami";
     query := "Process.Path == " ++ valueExpression "whoami.exe";
     risk_score := 0; description := ""; sigma_level := "informational" |}.

Definition sample_untitled_rule : ActivityMonitoringRule :=
  {| name := ""; event_type := Some "Process.Start"; tag := "";
     query := "Process.Name == " ++ valueExpression "x";
     risk_score := 75; description := ""; sigma_level := "high" |}.

(** The destinations that [finalize] writes, in its order, each with the
    level it holds. *)
Definition level_files : list (string * string) :=
  [ ("uberAgent-ESA-am-sigma-critical.conf", "critical");
    ("uberAgent-ESA-am-sigma-high.conf", "high");
    ("uberAgent-ESA-am-sigma-low.conf", "low");
    ("uberAgent-ESA-am-sigma-medium.conf", "medium") ].

(** What [finalize] prints. *)
Definition report (st : state) : list string :=
  [ "Generated " ++ str_of_nat (List.length (rules st)) ++ " activity monitoring rules..";
    "This includes " ++ str_of_nat (List.length (partition "critical" (rules st)))
    ++ " critical rules, " ++ str_of_nat (List.length (partition "high" (rules st)))
    ++ " high rules, " ++ str_of_nat (List.length (partition "medium" (rules st)))
    ++ " medium rules and " ++ str_of_nat (List.length (partition "low" (rules st)))
    ++ " low rules..";
    "There are " ++ str_of_nat (List.length (gUnsupportedCategories st))
    ++ " unsupported categories." ]
  ++ map (fun entry => "Category " ++ fst entry ++ " has "
                       ++ str_of_nat (snd entry) ++ " unsupported rules.")
         (gUnsupportedCategories st).

(** A rule with a clause on a mapped field and a clause on an ignored
    field, and the same rule without the second clause. *)
Definition sample_source_with_ignored_field : SigmaParser :=
  {| title := "Whoami"; level := "high"; rule_description := "";
     detection_condition := "selection";
     logsource_category := Some "process_creation";
     logsource_product := Some "windows"; logsource_service := None;
     parsedSearch :=
       ConditionAND [ MapItem "Image" (VScalar (SStr "whoami.exe"));
                      MapItem "EventID" (VScalar (SInt 1)) ];
     parsedAgg := None |}.

Definition sample_source_without_ignored_field : SigmaParser :=
  {| title := "Whoami"; level := "high"; rule_description := "";
     detection_condition := "selection";
     logsource_category := Some "process_creation";
     logsource_product := Some "windows"; logsource_service := None;
     parsedSearch := ConditionAND [ MapItem "Image" (VScalar (SStr "whoami.exe")) ];
     parsedAgg := None |}.

End UberAgentViews.


Module WildcardViews.
Import UberAgent.

(** Whether the text [s], read after a position whose previous character
    is a backslash or not ([prev]), ends in a backslash. For [prev] false:
    [s] is not empty and its last character is a backslash. *)
Fixpoint ends_bs (prev : bool) (s : string) : bool :=
  match s with
  | "" => prev
  | String c t => ends_bs (is_bs c) t
  end.

(** A run of [n] backslashes. *)
Fixpoint backslashes (n : nat) : string :=
  match n with
  | O => ""
  | S m => String bslash (backslashes m)
  end.

(** The glyph of the target for a glyph of the rule language. *)
Definition target (g : ascii) : ascii :=
  if (g =? "*")%char then "%"%char else "_"%char.

(** What [cleanValue] makes of [n] backslashes and a glyph. *)
Definition translated (n : nat) (g : ascii) : string :=
  if Nat.even n then group1 (Nat.div n 2) ++ String (target g) ""
  else backslashes n ++ String g "".

End WildcardViews.
(** * Properties *)

(** ** Strings *)

Section StringFacts.

Lemma append_nil_r (s : string) : s ++ "" = s.
Proof. induction s as [|c s IH]; cbn; [reflexivity | now rewrite IH]. Qed.

Lemma append_assoc (a b c : string) : (a ++ b) ++ c = a ++ (b ++ c).
Proof. induction a as [|x a IH]; cbn; [reflexivity | now rewrite IH]. Qed.

Lemma length_append (a b : string) :
  String.length (a ++ b) = String.length a + String.length b.
Proof. induction a as [|x a IH]; cbn; [reflexivity | now rewrite IH]. Qed.

Lemma prefix_refl_app (p s : string) : prefix p (p ++ s) = true.
Proof.
  induction p as [|c p IH]; cbn.
  - now destruct s.
  - destruct (ascii_dec c c); [exact IH | congruence].
Qed.

Lemma prefix_app_r (p s t : string) : prefix p s = true -> prefix p (s ++ t) = true.
Proof.
  revert s. induction p as [|c p IH]; intros s H.
  - now destruct (s ++ t).
  - destruct s as [|x s]; cbn in *; [discriminate|].
    destruct (ascii_dec c x); [now apply IH | discriminate].
Qed.

Lemma eqb_length_neq (a b : string) :
  String.length a <> String.length b -> (a =? b) = false.
Proof.
  intros H. apply String.eqb_neq. intros ->. now apply H.
Qed.

Lemma endswith_refl (s : string) : endswith s s = true.
Proof. destruct s; cbn; now rewrite ?Ascii.eqb_refl, ?String.eqb_refl. Qed.

Lemma endswith_app_l (a s p : string) : endswith s p = true -> endswith (a ++ s) p = true.
Proof.
  intros H. induction a as [|c a IH]; cbn; [exact H|].
  rewrite IH. apply orb_true_r.
Qed.

Lemma endswith_suffix (s p : string) : endswith (s ++ p) p = true.
Proof. apply endswith_app_l, endswith_refl. Qed.

(** A suffix test only looks at the last characters. *)
Lemma endswith_app_long (a s p : string) :
  String.length p <= String.length s -> endswith (a ++ s) p = endswith s p.
Proof.
  intros H. induction a as [|c a IH]; cbn [append]; [reflexivity|].
  cbn [endswith]. rewrite IH.
  change (String c (a ++ s)) with (String c a ++ s).
  rewrite eqb_length_neq; [reflexivity|].
  rewrite length_append. cbn. lia.
Qed.

Lemma slice_last_snoc (body : string) (c : ascii) :
  slice_last (body ++ String c "") = String c "".
Proof.
  induction body as [|x body IH]; cbn; [reflexivity|].
  cbn in IH. rewrite IH. now destruct body.
Qed.

Lemma slice_init_snoc (body : string) (c : ascii) :
  slice_init (body ++ String c "") = body.
Proof.
  induction body as [|x body IH]; cbn; [reflexivity|].
  cbn in IH. rewrite IH. now destruct body.
Qed.

Lemma fold_left_snoc_map {A B : Type} (f : A -> B) (xs : list A) (acc : list B) :
  fold_left (fun acc x => (acc ++ [f x])%list) xs acc = (acc ++ map f xs)%list.
Proof.
  revert acc. induction xs as [|x xs IH]; intros acc; cbn.
  - now rewrite app_nil_r.
  - rewrite IH, <- app_assoc. reflexivity.
Qed.

Lemma in_firstn {A : Type} (n : nat) (xs : list A) (x : A) :
  In x (firstn n xs) -> In x xs.
Proof.
  revert xs. induction n as [|n IH]; intros [|y xs]; cbn; try tauto.
  intros [E|H]; [now left | right; now apply IH].
Qed.

End StringFacts.

(** ** QRadar: aggregation, timeframe, regular expressions, lists *)

Module QRadarFacts.
Import QRadar QRadarViews.

Lemma one_char_eqb (c d : ascii) : (String c "" =? String d "") = (c =? d)%char.
Proof. cbn. now destruct (c =? d)%char. Qed.

Lemma generateTimeframe_snoc (body : string) (c : ascii) :
  generateTimeframe (body ++ String c "")
  = (n <- int body ;; Ok [(unit_of c, n)]).
Proof.
  unfold generateTimeframe, unit_of.
  rewrite slice_last_snoc, slice_init_snoc.
  rewrite !one_char_eqb.
  destruct (c =? "s")%char; [reflexivity|].
  destruct (c =? "m")%char; [reflexivity|].
  destruct (c =? "h")%char; [reflexivity|].
  destruct (c =? "d")%char; reflexivity.
Qed.

(** C2, as the code has it: with no group-by field and a function other
    than near, the epilogue is a GROUP BY on the aggregated field (an empty
    name when there is none) followed by the HAVING comparison of the
    aggregate against the threshold; the timeframe plays no part. *)
Theorem aggregation_without_group_field (agg : aggregation) (timeframe : option string) :
  groupfield agg = None ->
  is_near (aggfunc agg) = false ->
  generateAggregation (Some agg) timeframe
  = Ok (AggPair (prologue false agg)
                (" group by " ++ cleanKey (aggfield agg) ++ having agg)).
Proof.
  intros Hg Hn. unfold generateAggregation, prologue, having.
  rewrite Hn, Hg. reflexivity.
Qed.

Lemma aggregation_without_group_field_witness :
  generateAggregation (Some count_all) (Some "30m")
  = Ok (AggPair "SELECT count() as agg_val from events where"
                " group by  having agg_val > 5").
Proof.
  exact (aggregation_without_group_field count_all (Some "30m") eq_refl eq_refl).
Defined.

(** C2 as stated fails: a count over all events with no group-by field
    gets an epilogue that has a GROUP BY fragment in front of HAVING. *)
Lemma epilogue_with_no_group_field_has_group_by :
  groupfield count_all = None /\
  is_near (aggfunc count_all) = false /\
  exists pre epi,
    generateAggregation (Some count_all) None = Ok (AggPair pre epi) /\
    contains "group by" epi = true /\
    epi <> " having agg_val > 5".
Proof.
  split; [reflexivity|]. split; [reflexivity|].
  exists "SELECT count() as agg_val from events where", " group by  having agg_val > 5".
  split; [reflexivity|]. split; [reflexivity | discriminate].
Qed.

(** C6, as the code has it: the unit comes from the trailing character (s,
    m, h, d, anything else months) and the text before it is parsed as the
    integer duration; with a group-by field and a timeframe other than the
    default marker 00, the epilogue ends with LAST, the duration and the
    unit. *)
Theorem timeframe_unit_and_window (body : string) (c : ascii) (agg : aggregation)
    (gf : string) (n : Z) :
  generateTimeframe (body ++ String c "") = (n <- int body ;; Ok [(unit_of c, n)])
  /\ (groupfield agg = Some gf ->
      is_near (aggfunc agg) = false ->
      body ++ String c "" <> "00" ->
      int body = Ok n ->
      generateAggregation (Some agg) (Some (body ++ String c ""))
      = Ok (AggPair (prologue true agg)
                    (" group by " ++ cleanKey (Some gf) ++ having agg
                     ++ " LAST " ++ str_of_Z n ++ " " ++ unit_of c))).
Proof.
  split; [apply generateTimeframe_snoc|].
  intros Hg Hn H00 Hint.
  unfold generateAggregation. rewrite Hn, Hg.
  apply String.eqb_neq in H00. rewrite H00.
  rewrite generateTimeframe_snoc, Hint. cbn [bind].
  unfold prologue, having. rewrite !append_assoc. reflexivity.
Qed.

Lemma timeframe_unit_and_window_witness :
  generateTimeframe "30m" = Ok [("minutes", 30%Z)] /\
  generateAggregation (Some count_by_user) (Some "30m")
  = Ok (AggPair " SELECT count() as agg_val from events where "
                " group by user having agg_val > 5 LAST 30 minutes").
Proof.
  destruct (timeframe_unit_and_window "30" "m" count_by_user "user" 30) as [Ht Ha].
  split; [exact Ht|].
  apply Ha; [reflexivity | reflexivity | discriminate | reflexivity].
Defined.

(** C6 as stated fails at the timeframe 00: its trailing character is no
    unit letter and the text before it is the integer 0, yet the epilogue
    has no LAST part. *)
Lemma timeframe_default_marker_has_no_window :
  groupfield count_by_user = Some "user" /\
  int (slice_init "00") = Ok 0%Z /\
  unit_of "0" = "months" /\
  generateAggregation (Some count_by_user) (Some "00")
  = Ok (AggPair " SELECT count() as agg_val from events where "
                " group by user having agg_val > 5") /\
  endswith " group by user having agg_val > 5" " LAST 0 months" = false.
Proof. repeat split. Qed.

Lemma startswith_anchored (s : string) :
  startswith (anchorRegex s) "^" || startswith (anchorRegex s) ".*" = true.
Proof.
  unfold anchorRegex, startswith.
  destruct (negb (prefix "^" s) && negb (prefix ".*" s)) eqn:E.
  - assert (P : prefix ".*" (".*" ++ s) = true) by apply prefix_refl_app.
    destruct (negb (endswith (".*" ++ s) "$") && negb (endswith (".*" ++ s) ".*")).
    + rewrite (prefix_app_r _ _ (".*") P). apply orb_true_r.
    + rewrite P. apply orb_true_r.
  - assert (P : prefix "^" s || prefix ".*" s = true).
    { destruct (prefix "^" s), (prefix ".*" s); cbn in *; congruence. }
    destruct (negb (endswith s "$") && negb (endswith s ".*")); [|exact P].
    apply orb_true_iff in P. apply orb_true_iff.
    destruct P as [P|P]; [left | right]; now apply prefix_app_r.
Qed.

Lemma endswith_anchored (s : string) :
  endswith (anchorRegex s) "$" || endswith (anchorRegex s) ".*" = true.
Proof.
  unfold anchorRegex.
  set (r := if negb (startswith s "^") && negb (startswith s ".*")
            then ".*" ++ s else s).
  destruct (negb (endswith r "$") && negb (endswith r ".*")) eqn:E.
  - rewrite (endswith_suffix r ".*"). apply orb_true_r.
  - destruct (endswith r "$"), (endswith r ".*"); cbn in *; congruence.
Qed.

Lemma anchorRegex_fixed (r : string) :
  startswith r "^" || startswith r ".*" = true ->
  endswith r "$" || endswith r ".*" = true ->
  anchorRegex r = r.
Proof.
  intros Hs He. unfold anchorRegex.
  apply orb_true_iff in Hs. apply orb_true_iff in He.
  assert (E1 : negb (startswith r "^") && negb (startswith r ".*") = false)
    by (destruct Hs as [-> | ->]; cbn; now rewrite ?andb_false_r).
  rewrite E1.
  assert (E2 : negb (endswith r "$") && negb (endswith r ".*") = false)
    by (destruct He as [-> | ->]; cbn; now rewrite ?andb_false_r).
  rewrite E2. reflexivity.
Qed.

Lemma anchorRegex_idempotent (s : string) : anchorRegex (anchorRegex s) = anchorRegex s.
Proof.
  apply anchorRegex_fixed; [apply startswith_anchored | apply endswith_anchored].
Qed.

(** What the end of [".*" ++ s] looks like, against the end of [s]. *)
Lemma endswith_after_prepend (s p : string) :
  p = "$" \/ p = ".*" ->
  s <> "" ->
  endswith (".*" ++ s) p = endswith s p.
Proof.
  intros Hp Hs.
  destruct s as [|c1 [|c2 t]]; [congruence | |].
  - destruct Hp as [-> | ->]; cbn -[String.eqb];
      repeat match goal with
             | |- context [String.eqb ?a ?b] => destruct (String.eqb_spec a b)
             end; cbn; congruence.
  - apply endswith_app_long. destruct Hp as [-> | ->]; cbn; lia.
Qed.

(** C7, as the code has it: [.*] goes in front exactly when the pattern
    starts with neither a caret nor [.*]; [.*] goes behind exactly when the
    pattern is not empty and ends with neither a dollar nor [.*] (the empty
    pattern gets one [.*], from the first step); anchoring twice is
    anchoring once; the four sample patterns come out as listed. *)
Theorem anchorRegex_shape_and_idempotence (pattern : string) :
  anchorRegex pattern
  = (if negb (startswith pattern "^") && negb (startswith pattern ".*")
     then ".*" else "")
    ++ pattern
    ++ (if negb (pattern =? "") && negb (endswith pattern "$")
           && negb (endswith pattern ".*")
        then ".*" else "")
  /\ anchorRegex (anchorRegex pattern) = anchorRegex pattern
  /\ anchorRegex "abc" = ".*abc.*"
  /\ anchorRegex "^abc" = "^abc.*"
  /\ anchorRegex "abc$" = ".*abc$"
  /\ anchorRegex ".*abc.*" = ".*abc.*".
Proof.
  split; [|split; [apply anchorRegex_idempotent | repeat split]].
  destruct (String.eqb_spec pattern "") as [->|Hne]; [reflexivity|].
  unfold anchorRegex. cbn [negb andb].
  destruct (negb (startswith pattern "^") && negb (startswith pattern ".*")).
  - rewrite !endswith_after_prepend by (assumption || (now left) || (now right)).
    destruct (negb (endswith pattern "$") && negb (endswith pattern ".*"));
      [now rewrite append_assoc | now rewrite !append_nil_r].
  - destruct (negb (endswith pattern "$") && negb (endswith pattern ".*"));
      cbn [append]; [reflexivity | now rewrite append_nil_r].
Qed.

(** C7 as stated fails at the empty pattern: it starts and ends with none
    of the anchors, so both a leading and a trailing [.*] are expected, and
    the code gives a single one. *)
Lemma anchorRegex_empty_pattern :
  startswith "" "^" = false /\ startswith "" ".*" = false /\
  endswith "" "$" = false /\ endswith "" ".*" = false /\
  anchorRegex "" = ".*" /\
  anchorRegex "" <> ".*" ++ "" ++ ".*".
Proof. repeat split. discriminate. Qed.

Lemma generateMapItemListNode_map (key : string) (items : list item) :
  generateMapItemListNode key items
  = "(" ++ join " or " (map (list_item_clause key) items) ++ ")".
Proof.
  unfold generateMapItemListNode. now rewrite fold_left_snoc_map.
Qed.

(** C8, as the code has it: a list value renders as the per-item clauses,
    in input order, joined with the OR token inside parentheses. An item
    that is None gives the null test; a string that has /16 or /24 in it,
    under a field name that has ip in it, gives the address-in-range test;
    failing that, a string with a star in it gives the pattern match with
    the star turned into a percent sign; anything else gives the
    equality. *)
Theorem list_value_clauses (key : string) (items : list item) (s : string) (z : Z) :
  generateMapItemListNode key items
  = "(" ++ join orToken (map (list_item_clause key) items) ++ ")"
  /\ list_item_clause key INone = key ++ " is null"
  /\ (contains "ip" key = true ->
      contains "/16" s || contains "/24" s = true ->
      list_item_clause key (IVal (SStr s))
      = "INCIDR('" ++ cleanValue s ++ "', " ++ cleanKey (Some key) ++ ")")
  /\ (contains "ip" key && (contains "/16" s || contains "/24" s) = false ->
      contains "*" s = true ->
      list_item_clause key (IVal (SStr s))
      = cleanKey (Some key) ++ " ilike '" ++ cleanValue (replace "*" "%" s) ++ "'")
  /\ (contains "ip" key && (contains "/16" s || contains "/24" s) = false ->
      contains "*" s = false ->
      list_item_clause key (IVal (SStr s))
      = cleanKey (Some key) ++ " = '" ++ cleanValue s ++ "'")
  /\ list_item_clause key (IVal (SInt z))
     = cleanKey (Some key) ++ " = '" ++ cleanValue (str_of_Z z) ++ "'".
Proof.
  split; [apply generateMapItemListNode_map|].
  split; [reflexivity|].
  split; [|split; [|split]].
  - intros Hk Hs. cbn. rewrite Hk, Hs. cbn. now rewrite !append_assoc.
  - intros Hc Hw. cbn. rewrite Hc, Hw. reflexivity.
  - intros Hc Hw. cbn. rewrite Hc, Hw. reflexivity.
  - reflexivity.
Qed.

Lemma list_value_clauses_witness :
  generateMapItemListNode "src_ip" [IVal (SStr "10.0.0.0/16"); IVal (SStr "10.0.0.5")]
  = "(INCIDR('10.0.0.0/16', src_ip) or src_ip = '10.0.0.5')"
  /\ list_item_clause "src_ip" (IVal (SStr "10.0.0.0/16"))
     = "INCIDR('10.0.0.0/16', src_ip)"
  /\ list_item_clause "host" (IVal (SStr "a*"))
     = "host ilike 'a%'"
  /\ list_item_clause "src_ip" (IVal (SStr "10.0.0.5"))
     = "src_ip = '10.0.0.5'".
Proof.
  split; [|split; [|split]].
  - exact (proj1 (list_value_clauses "src_ip"
                    [IVal (SStr "10.0.0.0/16"); IVal (SStr "10.0.0.5")] "" 0)).
  - apply (proj1 (proj2 (proj2 (list_value_clauses "src_ip" [] "10.0.0.0/16" 0))));
      reflexivity.
  - apply (proj1 (proj2 (proj2 (proj2 (list_value_clauses "host" [] "a*" 0)))));
      reflexivity.
  - apply (proj1 (proj2 (proj2 (proj2 (proj2
             (list_value_clauses "src_ip" [] "10.0.0.5" 0))))));
      reflexivity.
Defined.

(** C8 as stated fails: under a field name that has ip in it, a CIDR
    block with a prefix length other than 16 or 24 gets the equality and not
    the address-in-range test, and an item whose only wildcard is a
    question mark gets the equality and not the pattern match. *)
Lemma cidr_block_of_other_length_is_compared :
  contains "ip" "src_ip" = true
  /\ list_item_clause "src_ip" (IVal (SStr "10.0.0.0/8")) = "src_ip = '10.0.0.0/8'"
  /\ generateMapItemListNode "src_ip"
       [IVal (SStr "10.0.0.0/8"); IVal (SStr "10.0.0.5")]
     = "(src_ip = '10.0.0.0/8' or src_ip = '10.0.0.5')"
  /\ list_item_clause "host" (IVal (SStr "web?")) = "host = 'web?'".
Proof. repeat split. Qed.

End QRadarFacts.

(** ** uberAgent: rule blocks *)

Module RuleBlockFacts.
Import UberAgent UberAgentViews.

Lemma render_block_app (a b : list entry) :
  render_block (a ++ b) = render_block a ++ render_block b.
Proof.
  unfold render_block.
  induction a as [|e a IH]; cbn [fold_right app append]; [reflexivity|].
  now rewrite IH, append_assoc.
Qed.

Lemma description_loop (lines : list string) (acc : string) :
  fold_left (fun acc description_line => acc ++ line ("# " ++ description_line)) lines acc
  = acc ++ render_block (map EDescription lines).
Proof.
  revert acc. induction lines as [|l lines IH]; intros acc; cbn.
  - now rewrite append_nil_r.
  - rewrite IH, append_assoc. reflexivity.
Qed.

(** The inner loop adds numbered properties until the counter passes 10. *)
Lemma generic_property_loop_spec (props : list string) (result : string) (counter : nat) :
  generic_property_loop props (result, counter)
  = (result ++ render_block (numbered counter (firstn (11 - counter) props)),
     counter + List.length (firstn (11 - counter) props)).
Proof.
  revert result counter. induction props as [|prop props IH]; intros result counter.
  - cbn. rewrite firstn_nil. cbn. now rewrite append_nil_r, Nat.add_0_r.
  - cbn [generic_property_loop].
    destruct (Nat.ltb 10 counter) eqn:E.
    + apply Nat.ltb_lt in E. replace (11 - counter) with 0 by lia.
      cbn. now rewrite append_nil_r, Nat.add_0_r.
    + apply Nat.ltb_ge in E. rewrite IH.
      replace (11 - counter) with (S (11 - S counter)) by lia.
      cbn [firstn numbered render_block fold_right List.length].
      rewrite append_assoc. f_equal. lia.
Qed.

Lemma generic_properties_loop_spec (table : list (string * list string)) (et : string)
    (result : string) (counter : nat) :
  fold_left (fun st '(event_type_prefix, props) =>
               if startswith et event_type_prefix
               then generic_property_loop props st
               else st)
            table (result, counter)
  = (result ++ render_block
                 (numbered counter (firstn (11 - counter) (listed_properties table et))),
     counter + List.length (firstn (11 - counter) (listed_properties table et))).
Proof.
  revert result counter.
  induction table as [|[pre props] table IH]; intros result counter.
  - cbn. rewrite firstn_nil. cbn. now rewrite append_nil_r, Nat.add_0_r.
  - cbn [fold_left]. unfold listed_properties. cbn [filter fst].
    destruct (startswith et pre).
    + rewrite generic_property_loop_spec, IH.
      cbn [flat_map snd]. fold (listed_properties table et).
      rewrite firstn_app.
      assert (N : forall c xs ys,
                 numbered c (xs ++ ys)
                 = (numbered c xs ++ numbered (c + List.length xs) ys)%list).
      { intros c xs. revert c. induction xs as [|x xs IHx]; intros c ys; cbn.
        - now rewrite Nat.add_0_r.
        - rewrite IHx. do 3 f_equal. lia. }
      rewrite N, render_block_app, append_assoc, length_app.
      rewrite length_firstn.
      assert (K : 11 - (counter + Nat.min (11 - counter) (List.length props))
                  = 11 - counter - List.length props) by lia.
      rewrite K. f_equal. lia.
    + apply IH.
Qed.

(** [__str__] fails with the malformed-rule error, and with no other, when
    a required property is missing, and gives the rendered entries
    otherwise. *)
Lemma str_spec (r : ActivityMonitoringRule) :
  __str__ r
  = match event_type r with
    | None => Raise MalformedRuleException
    | Some et =>
        if (tag r =? "") || (name r =? "") || (query r =? "")
        then Raise MalformedRuleException
        else Ok (render_block (block_entries r et))
    end.
Proof.
  unfold __str__.
  destruct (event_type r) as [et|] eqn:Het; [|reflexivity].
  assert (L : forall s, Nat.eqb (String.length s) 0 = (s =? "")).
  { intros [|c s]; reflexivity. }
  rewrite !L.
  destruct (tag r =? ""); [reflexivity|].
  destruct (name r =? ""); [reflexivity|].
  destruct (query r =? ""); [reflexivity|].
  cbn [orb].
  rewrite generic_properties_loop_spec.
  unfold block_entries. f_equal.
  rewrite !render_block_app.
  replace (11 - 1) with 10 by reflexivity.
  set (g := render_block (numbered 1 (firstn 10 (listed_properties generic_properties et)))).
  destruct (Nat.ltb 0 (String.length (description r)));
    [rewrite description_loop|];
    destruct (0 <? risk_score r)%Z; destruct (et =? "Reg.Any");
    cbn [render_block fold_right map render_entry append];
    rewrite ?append_assoc, ?append_nil_r; cbn [append]; reflexivity.
Qed.

Lemma str_cases (r : ActivityMonitoringRule) :
  (exists text, __str__ r = Ok text) \/ __str__ r = Raise MalformedRuleException.
Proof.
  rewrite str_spec. destruct (event_type r); [|now right].
  destruct ((tag r =? "") || (name r =? "") || (query r =? ""));
    [now right | left; eauto].
Qed.

Lemma str_malformed_iff (r : ActivityMonitoringRule) :
  __str__ r = Raise MalformedRuleException
  <-> event_type r = None \/ tag r = "" \/ name r = "" \/ query r = "".
Proof.
  rewrite str_spec. destruct (event_type r) as [et|].
  - destruct (String.eqb_spec (tag r) ""), (String.eqb_spec (name r) ""),
      (String.eqb_spec (query r) ""); cbn; split; intros H;
      try reflexivity; try discriminate; try tauto;
      destruct H as [H|[H|[H|H]]]; congruence.
  - split; [now left | reflexivity].
Qed.

Lemma str_ok_entries (r : ActivityMonitoringRule) (text : string) :
  __str__ r = Ok text ->
  exists et, event_type r = Some et /\ text = render_block (block_entries r et).
Proof.
  rewrite str_spec. destruct (event_type r) as [et|]; [|discriminate].
  destruct ((tag r =? "") || (name r =? "") || (query r =? "")); [discriminate|].
  intros [= <-]. eauto.
Qed.

Lemma numbered_generic (counter : nat) (props : list string) (e : entry) :
  In e (numbered counter props) -> exists n p, e = EGenericProperty n p /\ In p props.
Proof.
  revert counter. induction props as [|p props IH]; intros counter; cbn; [tauto|].
  intros [<- | H]; [eauto|].
  destruct (IH _ H) as (n & q & -> & Hq). eauto.
Qed.

Lemma length_numbered (counter : nat) (props : list string) :
  List.length (numbered counter props) = List.length props.
Proof.
  revert counter. induction props as [|p props IH]; intros counter; cbn;
    [reflexivity | now rewrite IH].
Qed.

Lemma filter_generic_numbered (counter : nat) (props : list string) :
  filter is_generic (numbered counter props) = numbered counter props.
Proof.
  revert counter. induction props as [|p props IH]; intros counter; cbn;
    [reflexivity | now rewrite IH].
Qed.

Lemma filter_generic_descriptions (ls : list string) :
  filter is_generic (map EDescription ls) = [].
Proof. induction ls as [|l ls IH]; cbn; [reflexivity | exact IH]. Qed.

(** The generic entries of a block are the first ten listed properties. *)
Lemma generic_entries_of_block (r : ActivityMonitoringRule) (et : string) :
  filter is_generic (block_entries r et)
  = numbered 1 (firstn 10 (listed_properties generic_properties et)).
Proof.
  unfold block_entries. rewrite !filter_app, filter_generic_numbered.
  destruct (Nat.ltb 0 (String.length (description r)));
    rewrite ?filter_generic_descriptions;
    destruct (0 <? risk_score r)%Z; destruct (et =? "Reg.Any"); reflexivity.
Qed.

Lemma filter_risk_numbered (counter : nat) (props : list string) :
  filter is_risk_score (numbered counter props) = [].
Proof.
  revert counter. induction props as [|p props IH]; intros counter; cbn;
    [reflexivity | apply IH].
Qed.

Lemma filter_risk_descriptions (ls : list string) :
  filter is_risk_score (map EDescription ls) = [].
Proof. induction ls as [|l ls IH]; cbn; [reflexivity | exact IH]. Qed.

Lemma risk_entries_of_block (r : ActivityMonitoringRule) (et : string) :
  filter is_risk_score (block_entries r et)
  = if (0 <? risk_score r)%Z then [ERiskScore (risk_score r)] else [].
Proof.
  unfold block_entries. rewrite !filter_app, filter_risk_numbered.
  destruct (Nat.ltb 0 (String.length (description r)));
    rewrite ?filter_risk_descriptions;
    destruct (0 <? risk_score r)%Z; destruct (et =? "Reg.Any"); reflexivity.
Qed.

Lemma risk_entry_iff (r : ActivityMonitoringRule) (et : string) (z : Z) :
  In (ERiskScore z) (block_entries r et)
  <-> z = risk_score r /\ (0 < risk_score r)%Z.
Proof.
  assert (F : In (ERiskScore z) (block_entries r et)
              <-> In (ERiskScore z) (filter is_risk_score (block_entries r et))).
  { rewrite filter_In. cbn. tauto. }
  rewrite F, risk_entries_of_block.
  destruct (Z.ltb_spec 0 (risk_score r)) as [P|P]; cbn; split.
  - intros [E|[]]. injection E as <-. tauto.
  - intros [-> _]. now left.
  - tauto.
  - intros [_ Q]. lia.
Qed.

Lemma listed_properties_in (table : list (string * list string)) (et p : string) :
  In p (listed_properties table et) ->
  exists pre props, In (pre, props) table /\ startswith et pre = true /\ In p props.
Proof.
  unfold listed_properties. rewrite in_flat_map.
  intros ([pre props] & Hrow & Hp). apply filter_In in Hrow. cbn in *.
  exists pre, props. tauto.
Qed.

Lemma generic_entry_listed (r : ActivityMonitoringRule) (et : string) (n : nat) (p : string) :
  In (EGenericProperty n p) (block_entries r et) ->
  exists pre props,
    In (pre, props) generic_properties /\ startswith et pre = true /\ In p props.
Proof.
  intros H.
  assert (F : In (EGenericProperty n p) (filter is_generic (block_entries r et)))
    by (apply filter_In; split; [exact H | reflexivity]).
  rewrite generic_entries_of_block in F.
  apply numbered_generic in F. destruct F as (n' & p' & E & Hp).
  injection E as -> ->.
  apply listed_properties_in. eapply in_firstn. exact Hp.
Qed.

(** The loop of [serialize_file]. *)
Lemma serialize_loop (level : string) (rs : list ActivityMonitoringRule)
    (text : string) (count : nat) :
  fold_left (serialize_step level) rs (Ok (text, count))
  = Ok (text ++ fold_right (fun r rest => block_text r ++ rest) "" (partition level rs),
        count + List.length (partition level rs)).
Proof.
  revert text count. induction rs as [|r rs IH]; intros text count.
  - cbn. now rewrite append_nil_r, Nat.add_0_r.
  - cbn [fold_left]. unfold serialize_step at 2. cbn [bind].
    unfold partition. cbn [filter]. fold (partition level rs).
    unfold serializes.
    destruct (sigma_level r =? level); cbn [andb].
    + destruct (str_cases r) as [[s Hs]|Hs]; rewrite Hs.
      * rewrite IH. cbn iota. cbn [fold_right List.length].
        assert (B : block_text r = line s) by (unfold block_text; now rewrite Hs).
        rewrite B, append_assoc, Nat.add_succ_r. reflexivity.
      * apply IH.
    + apply IH.
Qed.

Lemma serialize_file_spec (fname level : string) (st : state) :
  serialize_file fname level st
  = (Ok (List.length (partition level (rules st))),
     write_file fname (partition_text level (rules st)) st).
Proof.
  unfold serialize_file. rewrite serialize_loop. reflexivity.
Qed.

Lemma partition_without (level : string) (rs1 rs2 : list ActivityMonitoringRule)
    (r : ActivityMonitoringRule) :
  serializes r = false ->
  partition level (rs1 ++ r :: rs2) = partition level (rs1 ++ rs2).
Proof.
  intros H. unfold partition. rewrite !filter_app. cbn [filter].
  now rewrite H, andb_false_r.
Qed.

(** C9: a rule block fails to serialize, with the malformed-rule error and
    no other, exactly when the event type is unset or the tag, the name or
    the query is empty; [serialize_file] then writes and counts what it
    would have without that rule; a block that serializes holds at most
    ten GenericProperty entries, each listed under a prefix of the event
    type. *)
Theorem malformed_rule_block (r : ActivityMonitoringRule) (text : string)
    (fname level : string) (st : state) (before after : list ActivityMonitoringRule) :
  (__str__ r = Raise MalformedRuleException
   <-> event_type r = None \/ tag r = "" \/ name r = "" \/ query r = "")
  /\ (forall e, __str__ r = Raise e -> e = MalformedRuleException)
  /\ (__str__ r = Raise MalformedRuleException ->
      rules st = (before ++ r :: after)%list ->
      serialize_file fname level st
      = (Ok (List.length (partition level (before ++ after))),
         write_file fname (partition_text level (before ++ after)) st))
  /\ (__str__ r = Ok text ->
      exists et,
        event_type r = Some et
        /\ text = render_block (block_entries r et)
        /\ List.length (filter is_generic (block_entries r et)) <= 10
        /\ forall n p,
             In (EGenericProperty n p) (block_entries r et) ->
             exists pre props,
               In (pre, props) generic_properties
               /\ startswith et pre = true /\ In p props).
Proof.
  split; [apply str_malformed_iff|]. split; [|split].
  - intros e He. destruct (str_cases r) as [[s Hs]|Hs]; congruence.
  - intros Hbad Hrules. rewrite serialize_file_spec, Hrules.
    unfold partition_text. rewrite partition_without; [reflexivity|].
    unfold serializes. now rewrite Hbad.
  - intros Hok. destruct (str_ok_entries r text Hok) as (et & Het & Htext).
    exists et. split; [exact Het|]. split; [exact Htext|]. split.
    + rewrite generic_entries_of_block, length_numbered, length_firstn. lia.
    + intros n p. apply generic_entry_listed.
Qed.

Lemma malformed_rule_block_witness :
  (__str__ sample_untitled_rule = Raise MalformedRuleException)
  /\ fst (serialize_file "high.conf" "high"
            (with_rules [sample_untitled_rule; sample_registry_rule] initial_state))
     = Ok 1
  /\ exists et,
       event_type sample_registry_rule = Some et
       /\ List.length (filter is_generic (block_entries sample_registry_rule et)) <= 10.
Proof.
  pose proof (malformed_rule_block sample_untitled_rule "" "high.conf" "high"
                (with_rules [sample_untitled_rule; sample_registry_rule] initial_state)
                [] [sample_registry_rule]) as (Hiff & _ & Hdrop & _).
  assert (Hbad : __str__ sample_untitled_rule = Raise MalformedRuleException)
    by (apply Hiff; right; left; reflexivity).
  split; [exact Hbad|]. split.
  - rewrite (Hdrop Hbad eq_refl). reflexivity.
  - destruct (__str__ sample_registry_rule) as [text|e] eqn:E; [|discriminate E].
    pose proof (malformed_rule_block sample_registry_rule text "" "" initial_state [] [])
      as (_ & _ & _ & Hok).
    destruct (Hok E) as (et & Het & _ & Hlen & _).
    exists et. split; [exact Het | exact Hlen].
Defined.

Lemma risk_score_default (level : string) :
  level <> "critical" -> level <> "high" -> level <> "medium" -> level <> "low" ->
  convert_sigma_level_to_uberagent_risk_score level = 0%Z.
Proof.
  intros H1 H2 H3 H4. unfold convert_sigma_level_to_uberagent_risk_score.
  cbn [lookup].
  destruct (String.eqb_spec "critical" level); [congruence|].
  destruct (String.eqb_spec "high" level); [congruence|].
  destruct (String.eqb_spec "medium" level); [congruence|].
  destruct (String.eqb_spec "low" level); [congruence|].
  reflexivity.
Qed.

(** What [generate] does to the list of rules: it leaves it, or appends one
    rule that carries the level of the source rule and the score of that
    level. *)
Lemma generate_rules (sigmaparser : SigmaParser) (st : state) :
  rules (snd (generate sigmaparser st)) = rules st
  \/ exists r,
       rules (snd (generate sigmaparser st)) = (rules st ++ [r])%list
       /\ fst (generate sigmaparser st) = Ok None
       /\ sigma_level r = level sigmaparser
       /\ risk_score r = convert_sigma_level_to_uberagent_risk_score (level sigmaparser)
       /\ name r = title sigmaparser
       /\ query r <> "".
Proof.
  unfold generate, get_parser_properties, is_sigma_category_supported.
  destruct (convert_sigma_category_to_uberagent_event_type _ _) as [[et|] g];
    cbn [negb]; [|now left].
  destruct (negb (mem_list _ _)); [now left|].
  cbn [current_category set_current_category].
  destruct (super_generate _ sigmaparser) as [q|e].
  - destruct (Nat.ltb 0 (String.length q)) eqn:Hq; [|now left].
    destruct (convert_sigma_category_to_uberagent_event_type _ _) as [et' g'].
    right. eexists. cbn. repeat split.
    intros E. cbn in E. rewrite E in Hq. discriminate Hq.
  - destruct e; now left.
Qed.

(** C10: critical, high, medium and low score 100, 75, 50 and 25, every
    other level, informational among them, scores 0; a block that
    serializes has a RiskScore entry exactly when the score of the rule is
    above zero, and then with that score; a rule that [generate] adds
    carries the score of its level, so the block of an informational rule
    has no RiskScore entry. *)
Theorem risk_score_by_level (lvl : string) (r : ActivityMonitoringRule)
    (text : string) (sigmaparser : SigmaParser) (st : state) :
  convert_sigma_level_to_uberagent_risk_score "critical" = 100%Z
  /\ convert_sigma_level_to_uberagent_risk_score "high" = 75%Z
  /\ convert_sigma_level_to_uberagent_risk_score "medium" = 50%Z
  /\ convert_sigma_level_to_uberagent_risk_score "low" = 25%Z
  /\ convert_sigma_level_to_uberagent_risk_score "informational" = 0%Z
  /\ (lvl <> "critical" -> lvl <> "high" -> lvl <> "medium" -> lvl <> "low" ->
      convert_sigma_level_to_uberagent_risk_score lvl = 0%Z)
  /\ (__str__ r = Ok text ->
      exists et,
        event_type r = Some et
        /\ text = render_block (block_entries r et)
        /\ ((exists z, In (ERiskScore z) (block_entries r et)) <-> (0 < risk_score r)%Z)
        /\ (forall z, In (ERiskScore z) (block_entries r et) -> z = risk_score r))
  /\ (In r (rules (snd (generate sigmaparser st))) ->
      ~ In r (rules st) ->
      level sigmaparser = "informational" ->
      risk_score r = 0%Z /\ forall et z, ~ In (ERiskScore z) (block_entries r et)).
Proof.
  do 5 (split; [reflexivity|]).
  split; [apply risk_score_default|]. split.
  - intros Hok. destruct (str_ok_entries r text Hok) as (et & Het & Htext).
    exists et. split; [exact Het|]. split; [exact Htext|]. split.
    + split.
      * intros [z Hz]. now apply risk_entry_iff in Hz.
      * intros Hpos. exists (risk_score r). now apply risk_entry_iff.
    + intros z Hz. now apply risk_entry_iff in Hz.
  - intros Hin Hnew Hlevel.
    destruct (generate_rules sigmaparser st) as [E|(r' & E & _ & _ & Hscore & _)].
    + rewrite E in Hin. contradiction.
    + rewrite E in Hin. apply in_app_iff in Hin.
      destruct Hin as [Hin|[<-|[]]]; [contradiction|].
      rewrite Hlevel in Hscore.
      change (convert_sigma_level_to_uberagent_risk_score "informational")
        with 0%Z in Hscore.
      split; [exact Hscore|].
      intros et z Hz. apply risk_entry_iff in Hz. rewrite Hscore in Hz. lia.
Qed.

Lemma risk_score_by_level_witness :
  convert_sigma_level_to_uberagent_risk_score "debug" = 0%Z
  /\ (exists et,
        event_type sample_registry_rule = Some et
        /\ exists z, In (ERiskScore z) (block_entries sample_registry_rule et))
  /\ risk_score sample_informational_rule = 0%Z
  /\ forall et z, ~ In (ERiskScore z) (block_entries sample_informational_rule et).
Proof.
  destruct (__str__ sample_registry_rule) as [text|e] eqn:E; [|discriminate E].
  pose proof (risk_score_by_level "debug" sample_registry_rule text
                sample_informational_source initial_state)
    as (_ & _ & _ & _ & _ & Hdefault & Hblock & _).
  pose proof (risk_score_by_level "debug" sample_informational_rule text
                sample_informational_source initial_state)
    as (_ & _ & _ & _ & _ & _ & _ & Hinfo).
  split; [apply Hdefault; discriminate|]. split.
  - destruct (Hblock E) as (et & Het & _ & Hiff & _).
    exists et. split; [exact Het|]. apply Hiff.
    injection Het as <-. reflexivity.
  - apply Hinfo.
    + left. reflexivity.
    + intros [].
    + reflexivity.
Defined.

End RuleBlockFacts.

(** ** uberAgent: field resolution *)

Module FieldFacts.
Import UberAgent UberAgentViews.

Lemma getitem_lookup {V : Type} (d : list (string * V)) (k : string) :
  getitem d k = match lookup k d with
                | Some v => Ok v
                | None => Raise (KeyError k)
                end.
Proof. reflexivity. Qed.

Lemma fieldNameMapping_in_order (current_category : option string) (fieldname : string) :
  fieldNameMapping current_category fieldname
  = resolve_in_order current_category fieldname.
Proof.
  unfold fieldNameMapping, resolve_in_order, in_category_table, category_lookup, mem.
  destruct current_category as [c|]; cbn [getitem_category].
  - rewrite getitem_lookup.
    destruct (lookup c fieldMappingPerCategory) as [table|]; cbn [bind].
    + rewrite getitem_lookup.
      destruct (lookup (lower fieldname) table); [reflexivity|].
      cbn [negb]. rewrite getitem_lookup.
      destruct (lookup (lower fieldname) fieldMapping); reflexivity.
    + rewrite getitem_lookup.
      destruct (lookup (lower fieldname) fieldMapping); reflexivity.
  - rewrite getitem_lookup.
    destruct (lookup (lower fieldname) fieldMapping); reflexivity.
Qed.

Lemma resolve_same_key (current_category : option string) (f1 f2 : string) :
  lower f1 = lower f2 ->
  same_outcome (resolve_in_order current_category f1)
               (resolve_in_order current_category f2).
Proof.
  intros E. unfold resolve_in_order. rewrite E.
  destruct (category_lookup current_category (lower f2)); [reflexivity|].
  destruct (lookup (lower f2) fieldMapping); [reflexivity|].
  destruct (mem_list (lower f2) ignoreFieldList); reflexivity.
Qed.

(** C5: a field name resolves, under its lower-case form, in the table of
    the current category first, in the global table next; a name in
    neither table raises the ignore signal when it is in the ignore list
    and the unsupported-field error otherwise. Two spellings with the same
    lower-case form resolve alike (the error text names the spelling that
    was given), and the target name comes from the table as it is spelled
    there. *)
Theorem field_resolution_order (current_category : option string)
    (fieldname other : string) :
  fieldNameMapping current_category fieldname
  = match category_lookup current_category (lower fieldname) with
    | Some target => Ok target
    | None =>
        match lookup (lower fieldname) fieldMapping with
        | Some target => Ok target
        | None =>
            if mem_list (lower fieldname) ignoreFieldList
            then Raise IgnoreFieldException
            else Raise (NotImplementedError
                          ("The field name " ++ fieldname ++ " in category "
                           ++ str_of_category current_category
                           ++ " is not implemented."))
        end
    end
  /\ (lower other = lower fieldname ->
      same_outcome (fieldNameMapping current_category other)
                   (fieldNameMapping current_category fieldname)).
Proof.
  split; [apply fieldNameMapping_in_order|].
  intros E. rewrite !fieldNameMapping_in_order. now apply resolve_same_key.
Qed.

Lemma field_resolution_order_witness :
  fieldNameMapping (Some "image_load") "SHA1" = Ok "Image.Hash.SHA1"
  /\ fieldNameMapping (Some "image_load") "Image" = Ok "Process.Path"
  /\ fieldNameMapping (Some "image_load") "EventID" = Raise IgnoreFieldException
  /\ same_outcome (fieldNameMapping (Some "process_creation") "IMAGE")
                  (fieldNameMapping (Some "process_creation") "image").
Proof.
  split; [exact (proj1 (field_resolution_order (Some "image_load") "SHA1" ""))|].
  split; [exact (proj1 (field_resolution_order (Some "image_load") "Image" ""))|].
  split; [exact (proj1 (field_resolution_order (Some "image_load") "EventID" ""))|].
  exact (proj2 (field_resolution_order (Some "process_creation") "image" "IMAGE")
               eq_refl).
Defined.

End FieldFacts.

(** ** uberAgent: the batch *)

Module BatchFacts.
Import UberAgent UberAgentViews RuleBlockFacts.

Lemma lookup_app {V : Type} (k : string) (a b : list (string * V)) :
  lookup k (a ++ b)
  = match lookup k a with
    | Some v => Some v
    | None => lookup k b
    end.
Proof.
  induction a as [|[k' v] a IH]; cbn; [reflexivity|].
  destruct (k' =? k); [reflexivity | exact IH].
Qed.

Lemma lookup_filter_same {V : Type} (k : string) (d : list (string * V)) :
  lookup k (filter (fun f => negb (fst f =? k)) d) = None.
Proof.
  induction d as [|[k' v] d IH]; cbn; [reflexivity|].
  destruct (k' =? k) eqn:E; cbn; [exact IH | now rewrite E].
Qed.

Lemma lookup_filter_other {V : Type} (k n : string) (d : list (string * V)) :
  k <> n ->
  lookup k (filter (fun f => negb (fst f =? n)) d) = lookup k d.
Proof.
  intros Hkn. induction d as [|[k' v] d IH]; cbn; [reflexivity|].
  destruct (String.eqb_spec k' n) as [->|Hn]; cbn.
  - apply String.eqb_neq in Hkn. rewrite String.eqb_sym in Hkn. now rewrite Hkn.
  - now rewrite IH.
Qed.

Lemma lookup_write_same (n c : string) (st : state) :
  lookup n (files (write_file n c st)) = Some c.
Proof.
  cbn. rewrite lookup_app, lookup_filter_same. cbn. now rewrite String.eqb_refl.
Qed.

Lemma lookup_write_other (k n c : string) (st : state) :
  k <> n ->
  lookup k (files (write_file n c st)) = lookup k (files st).
Proof.
  intros Hkn. cbn. rewrite lookup_app, lookup_filter_other by exact Hkn.
  destruct (lookup k (files st)); [reflexivity|].
  cbn. destruct (String.eqb_spec n k); [congruence | reflexivity].
Qed.

Lemma print_categories (g : list (string * nat)) (st : state) :
  fold_left (fun st entry =>
               print ("Category " ++ fst entry ++ " has "
                      ++ str_of_nat (snd entry) ++ " unsupported rules.") st)
            g st
  = {| current_category := current_category st; rules := rules st;
       gUnsupportedCategories := gUnsupportedCategories st;
       stdout := (stdout st
                  ++ map (fun entry => ("Category " ++ fst entry ++ " has "
                                        ++ str_of_nat (snd entry)
                                        ++ " unsupported rules.")%string) g)%list;
       files := files st |}.
Proof.
  revert st. induction g as [|e g IH]; intros st; cbn [fold_left map].
  - rewrite app_nil_r. now destruct st.
  - rewrite IH. cbn. now rewrite <- app_assoc.
Qed.

(** [finalize] in one step: four files, then the report. *)
Lemma finalize_spec (st : state) :
  finalize st
  = (Ok tt,
     {| current_category := current_category st; rules := rules st;
        gUnsupportedCategories := gUnsupportedCategories st;
        stdout := (stdout st ++ report st)%list;
        files :=
          files
            (write_file "uberAgent-ESA-am-sigma-medium.conf"
               (partition_text "medium" (rules st))
               (write_file "uberAgent-ESA-am-sigma-low.conf"
                  (partition_text "low" (rules st))
                  (write_file "uberAgent-ESA-am-sigma-high.conf"
                     (partition_text "high" (rules st))
                     (write_file "uberAgent-ESA-am-sigma-critical.conf"
                        (partition_text "critical" (rules st)) st)))) |}).
Proof.
  unfold finalize. rewrite !serialize_file_spec. cbv zeta.
  rewrite print_categories. unfold report. cbn -[partition partition_text str_of_nat].
  rewrite <- !app_assoc. reflexivity.
Qed.

Lemma partition_in (lvl : string) (rs : list ActivityMonitoringRule)
    (r : ActivityMonitoringRule) :
  In r (partition lvl rs)
  <-> In r rs /\ sigma_level r = lvl /\ serializes r = true.
Proof.
  unfold partition. rewrite filter_In, andb_true_iff, String.eqb_eq. tauto.
Qed.

(** C3, as the code has it: [finalize] writes four destinations, one for
    each of critical, high, low and medium, and no other; each holds the
    header of its level and then the blocks of the accumulated rules of
    that level that serialize, in their order, so that such a rule is in
    the partition of its own level and in no other, and a rule of any other
    level, informational among them, is in none; the report gives the
    number of accumulated rules, the four partition counts, the number of
    unsupported categories and the number of rules left out for each. *)
Theorem finalize_partitions (st : state) (r : ActivityMonitoringRule)
    (fname lvl other : string) :
  fst (finalize st) = Ok tt
  /\ rules (snd (finalize st)) = rules st
  /\ stdout (snd (finalize st)) = (stdout st ++ report st)%list
  /\ (In (fname, lvl) level_files ->
      lookup fname (files (snd (finalize st))) = Some (partition_text lvl (rules st)))
  /\ (~ In other (map fst level_files) ->
      lookup other (files (snd (finalize st))) = lookup other (files st))
  /\ (In r (partition lvl (rules st))
      <-> In r (rules st) /\ sigma_level r = lvl /\ serializes r = true)
  /\ (~ In (sigma_level r) (map snd level_files) ->
      forall f l, In (f, l) level_files -> ~ In r (partition l (rules st))).
Proof.
  rewrite finalize_spec. cbn [fst snd rules stdout files].
  split; [reflexivity|]. split; [reflexivity|]. split; [reflexivity|].
  split; [|split; [|split]].
  - intros [E|[E|[E|[E|[]]]]]; injection E as <- <-.
    + rewrite !lookup_write_other by discriminate. apply lookup_write_same.
    + rewrite !lookup_write_other by discriminate. apply lookup_write_same.
    + rewrite !lookup_write_other by discriminate. apply lookup_write_same.
    + apply lookup_write_same.
  - intros Hother. cbn in Hother.
    rewrite !lookup_write_other; [reflexivity | | | |]; intros ->; tauto.
  - apply partition_in.
  - intros Hlevel f l Hfl Hin. apply partition_in in Hin.
    destruct Hin as (_ & <- & _). apply Hlevel.
    change (sigma_level r) with (snd (f, sigma_level r)). now apply in_map.
Qed.

Lemma finalize_partitions_witness :
  let st := with_rules [sample_registry_rule; sample_informational_rule] initial_state in
  lookup "uberAgent-ESA-am-sigma-high.conf" (files (snd (finalize st)))
  = Some (partition_text "high" (rules st))
  /\ lookup "uberAgent-ESA-am-sigma-informational.conf" (files (snd (finalize st))) = None
  /\ (forall f l, In (f, l) level_files ->
                  ~ In sample_informational_rule (partition l (rules st))).
Proof.
  intros st.
  pose proof (finalize_partitions st sample_informational_rule
                "uberAgent-ESA-am-sigma-high.conf" "high"
                "uberAgent-ESA-am-sigma-informational.conf")
    as (_ & _ & _ & Hfile & Hother & _ & Hnone).
  split; [apply Hfile; right; left; reflexivity|].
  split.
  - rewrite Hother; [reflexivity|].
    cbn. intros [E|[E|[E|[E|[]]]]]; discriminate E.
  - apply Hnone. cbn. intros [E|[E|[E|[E|[]]]]]; discriminate E.
Defined.

(** C3 as stated fails for the fifth level: an informational rule that is
    accumulated and serializes is written to no destination, and there is
    no destination for its level. *)
Lemma informational_rule_in_no_partition :
  let st := with_rules [sample_informational_rule] initial_state in
  In sample_informational_rule (rules st)
  /\ sigma_level sample_informational_rule = "informational"
  /\ serializes sample_informational_rule = true
  /\ fst (finalize st) = Ok tt
  /\ map fst (files (snd (finalize st))) = map fst level_files
  /\ forall fname content,
       In (fname, content) (files (snd (finalize st))) ->
       contains (block_text sample_informational_rule) content = false.
Proof.
  intros st. split; [now left|]. split; [reflexivity|]. split; [reflexivity|].
  split; [reflexivity|]. split; [reflexivity|].
  intros fname content H. vm_compute in H.
  destruct H as [E|[E|[E|[E|[]]]]]; injection E as <- <-; vm_compute; reflexivity.
Qed.

(** The combinators have no handler: what a child raises, after the
    children before it have rendered, is what the combinator raises. *)
Lemma mapM_raise {A B : Type} (f : A -> result B) (pre post : list A) (x : A)
    (ys : list B) (e : exn) :
  mapM f pre = Ok ys -> f x = Raise e -> mapM f (pre ++ x :: post) = Raise e.
Proof.
  revert ys. induction pre as [|p pre IH]; intros ys; cbn.
  - intros _ ->. reflexivity.
  - destruct (f p) as [y|e']; cbn; [|discriminate].
    destruct (mapM f pre) as [ys'|e'] eqn:E; cbn; [|discriminate].
    intros _ Hx. rewrite (IH ys' eq_refl Hx). reflexivity.
Qed.

Lemma generate_drops_ignored (sigmaparser : SigmaParser) (st : state) :
  generateNode (Some (lower_or_empty (logsource_category sigmaparser)))
               (parsedSearch sigmaparser) = Raise IgnoreFieldException ->
  fst (generate sigmaparser st) = Ok (Some "")
  /\ rules (snd (generate sigmaparser st)) = rules st
  /\ files (snd (generate sigmaparser st)) = files st
  /\ stdout (snd (generate sigmaparser st)) = stdout st.
Proof.
  intros H.
  unfold generate, get_parser_properties, is_sigma_category_supported.
  destruct (convert_sigma_category_to_uberagent_event_type _ _) as [[et|] g];
    cbn [negb]; [|now repeat split].
  destruct (negb (mem_list _ _)); [now repeat split|].
  cbn [current_category set_current_category].
  unfold super_generate, generateQuery.
  destruct (parsedAgg sigmaparser); [now repeat split|].
  rewrite H. now repeat split.
Qed.

(** C1, as the code has it: a match on a field of the ignore list raises
    the ignore signal; AND, OR, NOT and the subexpression pass on what a
    child raises once the children before it have rendered; and [generate]
    answers the signal by leaving the whole rule out: it returns the empty
    string and adds no rule to the batch, whatever the rest of the tree
    holds. *)
Theorem ignored_field_leaves_rule_out (current_category : option string)
    (field : string) (v : value) (pre post : list node) (child : node)
    (rendered : list string) (e : exn) (sigmaparser : SigmaParser) (st : state) :
  (fieldNameMapping current_category field = Raise IgnoreFieldException ->
   generateNode current_category (MapItem field v) = Raise IgnoreFieldException)
  /\ (mapM (generateNode current_category) pre = Ok rendered ->
      generateNode current_category child = Raise e ->
      generateNode current_category (ConditionAND (pre ++ child :: post)) = Raise e
      /\ generateNode current_category (ConditionOR (pre ++ child :: post)) = Raise e)
  /\ (generateNode current_category child = Raise e ->
      generateNode current_category (ConditionNOT child) = Raise e
      /\ generateNode current_category (NodeSubexpression child) = Raise e)
  /\ (generateNode (Some (lower_or_empty (logsource_category sigmaparser)))
                   (parsedSearch sigmaparser) = Raise IgnoreFieldException ->
      fst (generate sigmaparser st) = Ok (Some "")
      /\ rules (snd (generate sigmaparser st)) = rules st
      /\ files (snd (generate sigmaparser st)) = files st
      /\ stdout (snd (generate sigmaparser st)) = stdout st).
Proof.
  split; [|split; [|split]].
  - intros H. cbn. unfold generateMapItemNode. now rewrite H.
  - intros Hpre Hchild. cbn [generateNode].
    now rewrite (mapM_raise _ pre post child rendered e Hpre Hchild).
  - intros Hchild. cbn [generateNode]. now rewrite Hchild.
  - apply generate_drops_ignored.
Qed.

Lemma ignored_field_leaves_rule_out_witness :
  generateNode (Some "process_creation")
               (parsedSearch sample_source_with_ignored_field)
  = Raise IgnoreFieldException
  /\ fst (generate sample_source_with_ignored_field initial_state) = Ok (Some "")
  /\ rules (snd (generate sample_source_with_ignored_field initial_state)) = [].
Proof.
  pose proof (ignored_field_leaves_rule_out (Some "process_creation") "EventID"
                (VScalar (SInt 1))
                [MapItem "Image" (VScalar (SStr "whoami.exe"))] []
                (MapItem "EventID" (VScalar (SInt 1)))
                ["Process.Path == " ++ valueExpression "whoami.exe"]
                IgnoreFieldException
                sample_source_with_ignored_field initial_state)
    as (Hleaf & Hjoin & _ & Hrule).
  assert (Hraise : generateNode (Some "process_creation")
                     (parsedSearch sample_source_with_ignored_field)
                   = Raise IgnoreFieldException).
  { apply (Hjoin eq_refl). apply Hleaf. reflexivity. }
  split; [exact Hraise|].
  destruct (Hrule Hraise) as (Hret & Hrules & _).
  split; [exact Hret | exact Hrules].
Defined.

(** C1 as stated fails: with the clause on the ignored field the rule gives
    nothing, while the rule without that clause gives a block; the rest of
    the tree is not compiled as if the clause were absent. *)
Lemma ignored_field_not_elided :
  fieldNameMapping (Some "process_creation") "EventID" = Raise IgnoreFieldException
  /\ rules (snd (generate sample_source_without_ignored_field initial_state))
     = [ {| name := "Whoami"; event_type := Some "Process.Start"; tag := "whoami";
            query := "Process.Path == " ++ valueExpression "whoami.exe";
            risk_score := 75; description := ""; sigma_level := "high" |} ]
  /\ rules (snd (generate sample_source_with_ignored_field initial_state)) = []
  /\ rules (snd (generate sample_source_with_ignored_field initial_state))
     <> rules (snd (generate sample_source_without_ignored_field initial_state)).
Proof.
  split; [reflexivity|]. split; [reflexivity|]. split; [reflexivity|].
  discriminate.
Qed.

End BatchFacts.

(** ** Wildcards: cleanValue of uberAgent, and the replace of QRadar *)

Module WildcardFacts.
Import UberAgent WildcardViews.

Lemma is_bs_bslash : is_bs bslash = true.
Proof. reflexivity. Qed.

Lemma ends_bs_run (p : bool) (n : nat) (g : ascii) (x : string) :
  ends_bs p (backslashes n ++ String g x) = ends_bs (is_bs g) x.
Proof.
  revert p. induction n as [|n IH]; intros p; cbn; [reflexivity | apply IH].
Qed.

(** *** The first substitution *)

Lemma next_is_escapable_app (t b : string) :
  t <> "" -> next_is_escapable (t ++ b) = next_is_escapable t.
Proof. destruct t; [congruence | reflexivity]. Qed.

Lemma sub_lone_backslash_app (prev : bool) (a b : string) :
  ends_bs prev a = false ->
  sub_lone_backslash prev (a ++ b)
  = sub_lone_backslash prev a ++ sub_lone_backslash false b.
Proof.
  revert prev. induction a as [|c t IH]; intros prev H; cbn in H.
  - subst prev. reflexivity.
  - cbn [append sub_lone_backslash].
    destruct (is_bs c) eqn:Ec.
    + assert (Ht : t <> "") by (intros ->; cbn in H; discriminate).
      rewrite next_is_escapable_app by exact Ht.
      destruct (true && negb prev && negb (next_is_escapable t));
        cbn [append]; rewrite IH by exact H; reflexivity.
    + cbn [andb]. cbn [append]. rewrite IH by exact H. reflexivity.
Qed.

Lemma ends_bs_sub_lone_backslash (prev p : bool) (a : string) :
  ends_bs p (sub_lone_backslash prev a)
  = match a with
    | "" => p
    | _ => ends_bs prev a
    end.
Proof.
  revert prev p. induction a as [|c t IH]; intros prev p; [reflexivity|].
  cbn [sub_lone_backslash].
  destruct (is_bs c && negb prev && negb (next_is_escapable t)) eqn:E.
  - apply andb_true_iff in E. destruct E as [E _].
    apply andb_true_iff in E. destruct E as [Ec _].
    cbn [ends_bs]. rewrite is_bs_bslash, IH, Ec. now destruct t.
  - cbn [ends_bs]. rewrite IH. now destruct t.
Qed.

Lemma sub_lone_backslash_run (p : bool) (n : nat) (g : ascii) (x : string) :
  g = "*"%char \/ g = "?"%char ->
  sub_lone_backslash p (backslashes n ++ String g x)
  = backslashes n ++ String g (sub_lone_backslash false x).
Proof.
  intros Hg. revert p. induction n as [|n IH]; intros p.
  - destruct Hg as [-> | ->]; reflexivity.
  - cbn [backslashes append sub_lone_backslash].
    assert (E : next_is_escapable (backslashes n ++ String g x) = true).
    { destruct n; [destruct Hg as [-> | ->]; reflexivity | reflexivity]. }
    rewrite E, andb_false_r, is_bs_bslash, IH. reflexivity.
Qed.

(** *** The three escapes *)

Lemma sub_escape_app (c : ascii) (a b : string) :
  sub_escape c (a ++ b) = sub_escape c a ++ sub_escape c b.
Proof.
  induction a as [|x t IH]; cbn [append sub_escape]; [reflexivity|].
  destruct (x =? c)%char; cbn [append]; now rewrite IH.
Qed.

Lemma ends_bs_sub_escape (c : ascii) (p : bool) (a : string) :
  is_bs c = false -> ends_bs p (sub_escape c a) = ends_bs p a.
Proof.
  intros Hc. revert p. induction a as [|x t IH]; intros p; [reflexivity|].
  cbn [sub_escape]. destruct (Ascii.eqb_spec x c) as [->|Hx]; cbn [ends_bs].
  - apply IH.
  - apply IH.
Qed.

Lemma sub_escape_run (c : ascii) (n : nat) (g : ascii) (x : string) :
  is_bs c = false -> (g =? c)%char = false ->
  sub_escape c (backslashes n ++ String g x)
  = backslashes n ++ String g (sub_escape c x).
Proof.
  intros Hc Hg. induction n as [|n IH]; cbn [backslashes append sub_escape].
  - now rewrite Hg.
  - unfold is_bs in Hc. rewrite Ascii.eqb_sym in Hc. rewrite Hc, IH. reflexivity.
Qed.

(** *** The pattern of the two glyph substitutions *)

Lemma match_pairs_glyph_one (g c : ascii) (x : string) :
  is_bs c = false ->
  match_pairs_glyph g (String c x)
  = if (c =? g)%char then Some (0, x) else None.
Proof.
  intros Hc. destruct x as [|c2 t]; cbn [match_pairs_glyph]; rewrite Hc; reflexivity.
Qed.

(** On a run of backslashes and a character that is none: a match when the
    character is the glyph and the run is even, with half the run as the
    number of pairs. *)
Lemma match_pairs_glyph_run (g c : ascii) (n : nat) (x : string) :
  is_bs c = false ->
  match_pairs_glyph g (backslashes n ++ String c x)
  = if (c =? g)%char && Nat.even n then Some (Nat.div n 2, x) else None.
Proof.
  intros Hc. induction n as [n IH] using lt_wf_ind.
  destruct n as [|[|m]].
  - cbn [backslashes append Nat.even]. rewrite match_pairs_glyph_one by exact Hc.
    now rewrite andb_true_r.
  - cbn [backslashes append match_pairs_glyph Nat.even].
    rewrite is_bs_bslash, Hc. cbn. now rewrite andb_false_r.
  - cbn [backslashes append match_pairs_glyph].
    rewrite is_bs_bslash. cbn [andb negb]. rewrite (IH m) by lia.
    change (Nat.even (S (S m))) with (Nat.even m).
    replace (Nat.div (S (S m)) 2) with (S (Nat.div m 2)).
    + destruct ((c =? g)%char && Nat.even m); reflexivity.
    + change (S (S m)) with (1 * 2 + m)%nat.
      rewrite Nat.add_comm, Nat.div_add by discriminate. lia.
Qed.

(** What a match has consumed. *)
Lemma match_pairs_glyph_some (g : ascii) (s : string) (k : nat) (rest : string) :
  match_pairs_glyph g s = Some (k, rest) ->
  s = backslashes (2 * k) ++ String g rest /\ is_bs g = false.
Proof.
  revert k rest. remember (String.length s) as n eqn:Hn. revert s Hn.
  induction n as [n IH] using lt_wf_ind. intros s -> k rest.
  assert (Stop : forall c t,
             (if negb (is_bs c) && (c =? g)%char then Some (0, t) else None)
             = Some (k, rest) ->
             String c t = backslashes (2 * k) ++ String g rest /\ is_bs g = false).
  { intros c t. destruct (is_bs c) eqn:Ec; cbn [negb andb]; [discriminate|].
    destruct (Ascii.eqb_spec c g) as [->|]; [|discriminate].
    intros [= <- <-]. now split. }
  destruct s as [|c1 [|c2 t]]; cbn [match_pairs_glyph].
  - discriminate.
  - apply Stop.
  - destruct (is_bs c1 && is_bs c2) eqn:E; [|apply Stop].
    destruct (match_pairs_glyph g t) as [[k' r']|] eqn:Em; [|apply Stop].
    intros [= <- <-].
    destruct (IH (String.length t)) with (s := t) (k := k') (rest := r')
      as [-> Hg]; [cbn; lia | reflexivity | exact Em |].
    apply andb_true_iff in E. destruct E as [E1 E2].
    unfold is_bs in E1, E2. apply Ascii.eqb_eq in E1, E2. subst c1 c2.
    split; [|exact Hg].
    replace (2 * S k') with (S (S (2 * k'))) by lia. reflexivity.
Qed.

(** A match inside a text that does not end in a backslash does not see
    what comes after the text. *)
Lemma match_pairs_glyph_app (g c : ascii) (t b : string) :
  ends_bs (is_bs c) t = false ->
  match_pairs_glyph g (String c t ++ b)
  = match match_pairs_glyph g (String c t) with
    | Some (k, rest) => Some (k, rest ++ b)
    | None => None
    end.
Proof.
  remember (String.length t) as n eqn:Hn. revert c t Hn.
  induction n as [n IH] using lt_wf_ind. intros c1 t1 -> H.
  destruct t1 as [|c2 t].
  - cbn in H. cbn [append]. rewrite !match_pairs_glyph_one by exact H.
    destruct (c1 =? g)%char; reflexivity.
  - cbn [append match_pairs_glyph].
    destruct (is_bs c1 && is_bs c2) eqn:E.
    + apply andb_true_iff in E. destruct E as [E1 E2].
      cbn in H. rewrite E2 in H.
      destruct t as [|c3 t3]; [cbn in H; discriminate|].
      rewrite (IH (String.length t3)) by (cbn; lia || reflexivity || exact H).
      rewrite E1. cbn [negb andb].
      destruct (match_pairs_glyph g (String c3 t3)) as [[k r]|]; reflexivity.
    + destruct (negb (is_bs c1) && (c1 =? g)%char); reflexivity.
Qed.

(** *** The two glyph substitutions *)

Lemma sub_glyph_unfold (g r : ascii) (prev : bool) (c : ascii) (t : string) :
  sub_glyph g r prev (String c t)
  = match match_glyph g prev (String c t) with
    | Some (k, rest) => group1 k ++ String r (sub_glyph g r false rest)
    | None => String c (sub_glyph g r (is_bs c) t)
    end.
Proof.
  rewrite sub_glyph_equation_2.
  destruct (Logic.inspect (match_glyph g prev (String c t))) as [[[k rest]|] E];
    cbn [sub_glyph_unfold_clause_2]; rewrite E; reflexivity.
Qed.

Lemma sub_glyph_app (g r : ascii) (prev : bool) (a b : string) :
  ends_bs prev a = false ->
  sub_glyph g r prev (a ++ b) = sub_glyph g r prev a ++ sub_glyph g r false b.
Proof.
  remember (String.length a) as n eqn:Hn. revert prev a Hn.
  induction n as [n IH] using lt_wf_ind. intros prev a -> H.
  destruct a as [|c t].
  - cbn in H. subst prev. now rewrite sub_glyph_equation_1.
  - cbn in H. change (String c t ++ b) with (String c (t ++ b)).
    rewrite !sub_glyph_unfold. unfold match_glyph.
    destruct prev.
    + rewrite (IH (String.length t)) by (cbn; lia || reflexivity || exact H).
      reflexivity.
    + change (String c (t ++ b)) with (String c t ++ b).
      rewrite match_pairs_glyph_app by exact H.
      destruct (match_pairs_glyph g (String c t)) as [[k rest]|] eqn:Em.
      * destruct (match_pairs_glyph_some _ _ _ _ Em) as [Es Hg].
        assert (Hrest : ends_bs false rest = false).
        { change (ends_bs (is_bs c) t) with (ends_bs false (String c t)) in H.
          rewrite Es, ends_bs_run, Hg in H. exact H. }
        assert (Hlen : String.length rest < String.length (String c t)).
        { rewrite Es, length_append. cbn. lia. }
        rewrite (IH (String.length rest)) by (exact Hlen || reflexivity || exact Hrest).
        rewrite append_assoc. reflexivity.
      * rewrite (IH (String.length t)) by (cbn; lia || reflexivity || exact H).
        reflexivity.
Qed.

Lemma ends_bs_group1 (p : bool) (k : nat) (r : ascii) (x : string) :
  ends_bs p (group1 k ++ String r x) = ends_bs (is_bs r) x.
Proof. destruct k; reflexivity. Qed.

Lemma ends_bs_sub_glyph (g r : ascii) (prev p : bool) (a : string) :
  is_bs r = false ->
  ends_bs prev a = false ->
  ends_bs p (sub_glyph g r prev a)
  = match a with
    | "" => p
    | _ => false
    end.
Proof.
  intros Hr. remember (String.length a) as n eqn:Hn. revert prev p a Hn.
  induction n as [n IH] using lt_wf_ind. intros prev p a -> H.
  destruct a as [|c t]; [now rewrite sub_glyph_equation_1|].
  cbn in H. rewrite sub_glyph_unfold.
  destruct (match_glyph g prev (String c t)) as [[k rest]|] eqn:Em.
  - unfold match_glyph in Em. destruct prev; [discriminate|].
    destruct (match_pairs_glyph_some _ _ _ _ Em) as [Es Hg].
    assert (Hrest : ends_bs false rest = false).
    { change (ends_bs (is_bs c) t) with (ends_bs false (String c t)) in H.
      rewrite Es, ends_bs_run, Hg in H. exact H. }
    assert (Hlen : String.length rest < String.length (String c t)).
    { rewrite Es, length_append. cbn. lia. }
    rewrite ends_bs_group1, Hr.
    rewrite (IH (String.length rest)) by (exact Hlen || reflexivity || exact Hrest).
    now destruct rest.
  - cbn [ends_bs].
    rewrite (IH (String.length t)) by (cbn; lia || reflexivity || exact H).
    destruct t; [exact H | reflexivity].
Qed.

(** After a backslash nothing matches up to the next character that is
    none. *)
Lemma sub_glyph_escaped (g r c : ascii) (n : nat) (x : string) :
  is_bs c = false ->
  sub_glyph g r true (backslashes n ++ String c x)
  = backslashes n ++ String c (sub_glyph g r false x).
Proof.
  intros Hc. induction n as [|n IH]; cbn [backslashes append];
    rewrite sub_glyph_unfold; cbn [match_glyph].
  - now rewrite Hc.
  - now rewrite is_bs_bslash, IH.
Qed.

Lemma sub_glyph_run (g r c : ascii) (n : nat) (x : string) :
  is_bs c = false ->
  sub_glyph g r false (backslashes n ++ String c x)
  = (if (c =? g)%char && Nat.even n
     then group1 (Nat.div n 2) ++ String r ""
     else backslashes n ++ String c "")
    ++ sub_glyph g r false x.
Proof.
  intros Hc.
  pose proof (match_pairs_glyph_run g c n x Hc) as M.
  destruct n as [|n].
  - cbn [backslashes append] in *. rewrite sub_glyph_unfold. unfold match_glyph.
    rewrite M. destruct ((c =? g)%char && Nat.even 0); [reflexivity|].
    now rewrite Hc.
  - cbn [backslashes append] in *. rewrite sub_glyph_unfold. unfold match_glyph.
    rewrite M. destruct ((c =? g)%char && Nat.even (S n)).
    + now rewrite append_assoc.
    + rewrite is_bs_bslash, sub_glyph_escaped by exact Hc.
      cbn [append]. now rewrite append_assoc.
Qed.

(** *** cleanValue *)

(** cleanValue works piece by piece, wherever the text is cut after a
    character that is no backslash. *)
Lemma cleanValue_app (a b : string) :
  ends_bs false a = false ->
  cleanValue (a ++ b) = cleanValue a ++ cleanValue b.
Proof.
  intros H. unfold cleanValue.
  rewrite sub_lone_backslash_app by exact H.
  rewrite !sub_escape_app.
  assert (H1 : ends_bs false (sub_lone_backslash false a) = false).
  { rewrite ends_bs_sub_lone_backslash. now destruct a. }
  assert (H2 : ends_bs false
                 (sub_escape dq (sub_escape "%" (sub_escape "_"
                    (sub_lone_backslash false a)))) = false).
  { now rewrite !ends_bs_sub_escape. }
  rewrite sub_glyph_app by exact H2.
  rewrite sub_glyph_app; [reflexivity|].
  rewrite ends_bs_sub_glyph by (reflexivity || exact H2).
  now destruct (sub_escape dq _).
Qed.

Lemma cleanValue_run (n : nat) (g : ascii) :
  g = "*"%char \/ g = "?"%char ->
  cleanValue (backslashes n ++ String g "") = translated n g.
Proof.
  intros Hg. unfold cleanValue, translated.
  rewrite sub_lone_backslash_run by exact Hg.
  rewrite !sub_escape_run by (destruct Hg as [-> | ->]; reflexivity).
  cbn [sub_lone_backslash sub_escape].
  destruct Hg as [-> | ->].
  - rewrite sub_glyph_run by reflexivity.
    rewrite sub_glyph_equation_1, append_nil_r.
    change (("*" =? "*")%char) with true. cbn [andb].
    destruct (Nat.even n).
    + destruct (Nat.div n 2); reflexivity.
    + change (backslashes n ++ "*") with (backslashes n ++ String "*" "").
      rewrite sub_glyph_run by reflexivity.
      change (("*" =? "?")%char) with false. cbn [andb].
      now rewrite sub_glyph_equation_1, append_nil_r.
  - rewrite sub_glyph_run by reflexivity.
    rewrite sub_glyph_equation_1, append_nil_r.
    change (("?" =? "*")%char) with false. cbn [andb].
    rewrite sub_glyph_run by reflexivity.
    rewrite sub_glyph_equation_1, append_nil_r.
    change (("?" =? "?")%char) with true. cbn [andb].
    reflexivity.
Qed.

Lemma replace_app (c : ascii) (r a b : string) :
  replace c r (a ++ b) = replace c r a ++ replace c r b.
Proof.
  induction a as [|x t IH]; cbn [append replace]; [reflexivity|].
  destruct (x =? c)%char; cbn [append]; rewrite IH; [|reflexivity].
  now rewrite append_assoc.
Qed.

Lemma replace_backslashes (n : nat) : replace "*" "%" (backslashes n) = backslashes n.
Proof. induction n as [|n IH]; cbn; [reflexivity | now rewrite IH]. Qed.

(** C4, as the code has it. In the uberAgent backend a star or a question
    mark that has exactly [n] backslashes in front of it becomes the percent
    sign or the underscore when [n] is even (zero included), and stays as it
    is, with its backslashes, when [n] is odd; the text before and after is
    cleaned on its own. In the QRadar backend a string value with a star in
    it has every star replaced with the percent sign, whatever stands in
    front of it, and a question mark is never replaced. *)
Theorem wildcard_translation (before after : string) (n : nat) (g : ascii)
    (key : string) :
  (g = "*"%char \/ g = "?"%char ->
   ends_bs false before = false ->
   cleanValue (before ++ backslashes n ++ String g after)
   = cleanValue before
     ++ (if Nat.even n
         then group1 (Nat.div n 2) ++ String (target g) ""
         else backslashes n ++ String g "")
     ++ cleanValue after)
  /\ replace "*" "%" (before ++ backslashes n ++ String "*" after)
     = replace "*" "%" before ++ backslashes n
       ++ String "%" (replace "*" "%" after)
  /\ replace "*" "%" (backslashes n ++ String "?" "") = backslashes n ++ String "?" ""
  /\ QRadar.generateMapItemNode key
       (VScalar (SStr (before ++ backslashes n ++ String "*" after)))
     = Ok (QRadar.cleanKey (Some key) ++ " ilike '"
           ++ QRadar.cleanValue
                (replace "*" "%" before ++ backslashes n
                 ++ String "%" (replace "*" "%" after))
           ++ "'").
Proof.
  assert (R : replace "*" "%" (before ++ backslashes n ++ String "*" after)
              = replace "*" "%" before ++ backslashes n
                ++ String "%" (replace "*" "%" after)).
  { now rewrite !replace_app, replace_backslashes. }
  split; [|split; [exact R | split]].
  - intros Hg Hb.
    rewrite cleanValue_app by exact Hb.
    change (String g after) with (String g "" ++ after).
    rewrite <- append_assoc.
    rewrite (cleanValue_app (backslashes n ++ String g "") after).
    + rewrite cleanValue_run by exact Hg. reflexivity.
    + rewrite ends_bs_run. destruct Hg as [-> | ->]; reflexivity.
  - now rewrite replace_app, replace_backslashes.
  - unfold QRadar.generateMapItemNode.
    assert (C : contains "*" (before ++ backslashes n ++ String "*" after) = true).
    { clear R. induction before as [|c t IH]; cbn [append].
      - induction n as [|m IHm]; cbn [backslashes append contains].
        + cbn. now destruct after.
        + rewrite IHm. apply orb_true_r.
      - cbn [contains]. rewrite IH. apply orb_true_r. }
    rewrite C, R. reflexivity.
Qed.

Lemma wildcard_translation_witness :
  cleanValue "a\\*b" = "a\\%b"
  /\ cleanValue "a\*b" = "a\*b"
  /\ cleanValue "a?" = "a_".
Proof.
  split; [|split].
  - apply (proj1 (wildcard_translation "a" "b" 2 "*" ""));
      [now left | reflexivity].
  - apply (proj1 (wildcard_translation "a" "b" 1 "*" ""));
      [now left | reflexivity].
  - apply (proj1 (wildcard_translation "a" "" 0 "?" ""));
      [now right | reflexivity].
Defined.

(** C4 as stated fails in the QRadar backend: a star with one backslash
    in front of it is translated all the same, and a question mark with
    none is not. *)
Lemma qradar_translates_escaped_star :
  QRadar.generateMapItemNode "f" (VScalar (SStr "a\*"))
  = Ok "f ilike 'a\%'"
  /\ QRadar.generateMapItemNode "f" (VScalar (SStr "a?"))
     = Ok "f='a?'".
Proof. split; reflexivity. Qed.

End WildcardFacts.
